(** * MeshData: a shallow embedding of [pypret/mesh_data.py]

    The container [MeshData] pairs an N-dimensional array with one
    coordinate axis per dimension, a list of labels and a list of units.
    Its methods mutate the instance in place and may raise; they are
    embedded as computations in a state-and-exception monad over the
    record of the instance's attributes, so that what a method has
    written before it raises stays visible.

    - Numbers are rationals ([Q]). What NumPy computes in the element
      type of an array, where that decides what the code does, is part
      of the embedding: the distances [np.abs(ax - x)] that [limit]
      searches are computed by the arithmetic of the axes (float64
      rounds, int64 wraps around), a parameter ([Arith]); an array
      carries its element type ([dtype]), on which the in-place
      division of [normalize] depends.
    - An array is its element type, its shape and its elements nested
      by dimension; the NumPy operations the code uses (indexing by a
      tuple and by a list of slices, [take], [argmin], [argsort],
      [max], in-place division) are embedded next to it.
    - Python list indexing takes negative indices and raises
      [IndexError] out of range.
    - [lib.marginals], [lib.limit], [lib.build_coords] and SciPy's
      [RegularGridInterpolator] are parameters.
    - Which objects two containers share is a question of references;
      [Module Heap] embeds the constructor and [copy] on a heap. *)

From Stdlib Require Import List ZArith QArith Qabs String Bool Lia PeanoNat.
From Stdlib Require Import DecimalString Sorted.
From stdpp Require Import base option list gmap.
Import ListNotations.

Local Open Scope nat_scope.

(** ** Exceptions *)

(** The Python exceptions the code can raise, with their messages. *)
Inductive exn : Type :=
| ValueError (msg : string)
| IndexError (msg : string)
| TypeError (msg : string)
| AxisError (msg : string).

Definition result (A : Type) : Type := (exn + A)%type.

(** ['... %d!' % i] *)
Definition fmt_d (i : nat) : string := NilEmpty.string_of_uint (Nat.to_uint i).

Definition msg_num_axes : string := "Number of supplied axes is wrong!".
Definition msg_shape_axes : string := "Shape of supplied axes is wrong!".
Definition msg_num_limits : string :=
  "Number of limits must match the specified axes!".
Definition msg_empty_slice (i : nat) : string :=
  ("Selected empty slice along axis " ++ fmt_d i ++ "!")%string.
Definition msg_argmin_empty : string :=
  "attempt to get argmin of an empty sequence".
Definition msg_max_empty : string :=
  "zero-size array to reduction operation maximum which has no identity".
Definition msg_list_index : string := "list index out of range".
Definition msg_list_assign : string := "list assignment index out of range".
Definition msg_too_many_indices : string := "too many indices for array".
Definition msg_valid_indices : string :=
  "only integers, slices (`:`), ellipsis (`...`), numpy.newaxis (`None`) and integer or boolean arrays are valid indices".
Definition msg_cast_divide : string :=
  "Cannot cast ufunc 'divide' output from dtype('float64') to dtype('int64') with casting rule 'same_kind'".
Definition msg_axis_oob : string := "axis is out of bounds for array".
Definition msg_grid_dim : string :=
  "The requested sample points xi have a wrong dimension".

(** ** Python lists *)

(** [l[i]] for a Python integer [i]: negative indices count from the end,
    anything else out of range raises [IndexError]. *)
Definition py_pos {A} (l : list A) (i : Z) : option nat :=
  let n := Z.of_nat (length l) in
  if (0 <=? i)%Z && (i <? n)%Z then Some (Z.to_nat i)
  else if (- n <=? i)%Z && (i <? 0)%Z then Some (Z.to_nat (n + i))
  else None.

Definition py_get {A} (l : list A) (i : Z) : result A :=
  match py_pos l i with
  | Some k =>
      match l !! k with
      | Some x => inr x
      | None => inl (IndexError msg_list_index)
      end
  | None => inl (IndexError msg_list_index)
  end.

(** [l[i] = x] *)
Definition py_set {A} (l : list A) (i : Z) (x : A) : result (list A) :=
  match py_pos l i with
  | Some k => inr (<[k:=x]> l)
  | None => inl (IndexError msg_list_assign)
  end.

(** [axes.index(j)]: position of the first occurrence. *)
Fixpoint py_index (j : Z) (l : list Z) : option nat :=
  match l with
  | [] => None
  | a :: l' => if (a =? j)%Z then Some 0 else S <$> py_index j l'
  end.

(** [j in axes] *)
Definition py_in (j : Z) (l : list Z) : bool :=
  existsb (fun a => (a =? j)%Z) l.

(** ** NumPy arrays *)

(** The elements of an array, nested by dimension. *)
#[warnings="-register-all"]
Inductive nd : Type :=
| Scalar (x : Q)
| Arr (rows : list nd).

(** The element type of an array, as far as the code depends on it: a
    floating type or an integer type. *)
Inductive np_dtype : Type := float64 | int64.

(** An array is its element type, its [shape] and its elements; [ndim]
    is the length of the shape. *)
Record ndarray : Type :=
  mk_ndarray { dtype : np_dtype; shape : list nat; items : nd }.

Definition ndim (a : ndarray) : nat := length (shape a).

(** Every array NumPy builds is rectangular: [has_shape s d] says the
    nested elements [d] fill the shape [s]. *)
Fixpoint has_shape (s : list nat) (d : nd) : bool :=
  match s, d with
  | [], Scalar _ => true
  | n :: s', Arr rows => (length rows =? n) && forallb (has_shape s') rows
  | _, _ => false
  end.

Definition rect (a : ndarray) : bool := has_shape (shape a) (items a).

(** A one-dimensional array, as the axes are. *)
Abbreviation axis := (list Q).

(** Slice objects as the code builds them: [slice(None)],
    [slice(lo, hi)] and [slice(None, None, -1)]. *)
Inductive slice : Type :=
| SliceAll
| SliceRange (lo hi : nat)
| SliceRev.

(** [l[s]] on a sequence. *)
Definition apply_slice {A} (s : slice) (l : list A) : list A :=
  match s with
  | SliceAll => l
  | SliceRange lo hi => take (hi - lo) (drop lo l)
  | SliceRev => rev l
  end.

(** The length of [l[s]] from the length of [l]. *)
Definition slice_len (s : slice) (n : nat) : nat :=
  match s with
  | SliceAll => n
  | SliceRange lo hi => Nat.min (hi - lo) (n - lo)
  | SliceRev => n
  end.

Fixpoint slice_shape (ss : list slice) (sh : list nat) : list nat :=
  match ss, sh with
  | s :: ss', n :: sh' => slice_len s n :: slice_shape ss' sh'
  | _, _ => sh
  end.

Fixpoint slice_nd (ss : list slice) (d : nd) {struct ss} : nd :=
  match ss with
  | [] => d
  | s :: ss' =>
      match d with
      | Scalar x => Scalar x
      | Arr rows => Arr (map (slice_nd ss') (apply_slice s rows))
      end
  end.

(** [a[tuple(slices)]]: one slice per leading dimension; more slices than
    dimensions raise [IndexError]. *)
Definition getitem (a : ndarray) (ss : list slice) : result ndarray :=
  if length ss <=? ndim a
  then inr (mk_ndarray (dtype a) (slice_shape ss (shape a))
                       (slice_nd ss (items a)))
  else inl (IndexError msg_too_many_indices).

(** [a[slices]] where [slices] is a Python list and no tuple. NumPy
    takes a list as one index array along the first dimension, never as
    one index per dimension: a list that holds slice objects is no array
    of integers or booleans and raises [IndexError]; the empty list is
    the empty index array. *)
Definition getitem_list (a : ndarray) (ss : list slice) : result ndarray :=
  match ss with
  | [] =>
      match shape a with
      | [] => inl (IndexError msg_too_many_indices)
      | _ :: sh => inr (mk_ndarray (dtype a) (0 :: sh) (Arr []))
      end
  | _ :: _ => inl (IndexError msg_valid_indices)
  end.

(** [np.take(a, idx, axis=k)]: the shape, the elements, the call. *)
Fixpoint take_shape (k : nat) (n : nat) (sh : list nat) : list nat :=
  match sh with
  | [] => []
  | m :: sh' =>
      match k with
      | 0 => n :: sh'
      | S k' => m :: take_shape k' n sh'
      end
  end.

(** The indices come from [argsort] and are in range. *)
Fixpoint take_nd (k : nat) (idx : list nat) (d : nd) {struct k} : nd :=
  match d with
  | Scalar x => Scalar x
  | Arr rows =>
      match k with
      | 0 => Arr (omap (fun i => rows !! i) idx)
      | S k' => Arr (map (take_nd k' idx) rows)
      end
  end.

Definition np_take (a : ndarray) (idx : list nat) (k : nat) : result ndarray :=
  if k <? ndim a
  then inr (mk_ndarray (dtype a) (take_shape k (length idx) (shape a))
                       (take_nd k idx (items a)))
  else inl (AxisError msg_axis_oob).

(** All elements, in C order. *)
Fixpoint flatten (d : nd) : list Q :=
  match d with
  | Scalar x => [x]
  | Arr rows => flat_map flatten rows
  end.

(** [a[i0, i1, ...]]: the element at a position. *)
Fixpoint nd_get (d : nd) (idx : list nat) {struct idx} : option Q :=
  match idx, d with
  | [], Scalar x => Some x
  | i :: idx', Arr rows =>
      match rows !! i with
      | Some r => nd_get r idx'
      | None => None
      end
  | _, _ => None
  end.

Fixpoint map_nd (f : Q -> Q) (d : nd) : nd :=
  match d with
  | Scalar x => Scalar (f x)
  | Arr rows => Arr (map (map_nd f) rows)
  end.

(** The maximum of a non-empty sequence. *)
Definition qmax (x y : Q) : Q := if Qle_bool x y then y else x.

Definition list_max_Q (l : list Q) : option Q :=
  match l with
  | [] => None
  | x :: l' => Some (fold_left qmax l' x)
  end.

(** [a.max()] *)
Definition np_max (a : ndarray) : result Q :=
  match list_max_Q (flatten (items a)) with
  | Some m => inr m
  | None => inl (ValueError msg_max_empty)
  end.

(** [np.argmin(v)]: the first position of the minimum. *)
Fixpoint argmin_from (best : Q) (besti : nat) (i : nat) (l : list Q) : nat :=
  match l with
  | [] => besti
  | x :: l' =>
      if Qle_bool best x then argmin_from best besti (S i) l'
      else argmin_from x i (S i) l'
  end.

Definition np_argmin (v : list Q) : result nat :=
  match v with
  | [] => inl (ValueError msg_argmin_empty)
  | x :: l => inr (argmin_from x 0 1 l)
  end.

(** [a /= m] on an array: the quotients are floating numbers, which
    NumPy does not cast back into an array of integers. *)
Definition itruediv (a : ndarray) (m : Q) : result ndarray :=
  match dtype a with
  | float64 =>
      inr (mk_ndarray float64 (shape a) (map_nd (fun x => x / m)%Q (items a)))
  | int64 => inl (TypeError msg_cast_divide)
  end.

(** [a.astype(float)]: the same elements, held as floating numbers. *)
Definition astype_float (a : ndarray) : ndarray :=
  mk_ndarray float64 (shape a) (items a).

(** The arithmetic of the elements of the axes: [abs_sub a x] is what
    NumPy computes for [np.abs(a - x)] on a sample [a] of an axis and a
    bound [x], in the element type of the axis (float64 rounds the
    difference, int64 wraps around). *)
Class Arith : Type := { abs_sub : Q -> Q -> Q }.

(** [np.argmin(np.abs(ax - x))]: the first sample of [ax] with the
    least computed distance to [x]. *)
Definition nearest {arith : Arith} (ax : axis) (x : Q) : result nat :=
  np_argmin (map (fun a => abs_sub a x) ax).

(** [np.argsort(v)]: the positions of [v] in ascending order of value.
    Ties keep their order (NumPy leaves the order of ties to the sorting
    kind). *)
Fixpoint insert_sorted (p : Q * nat) (l : list (Q * nat)) : list (Q * nat) :=
  match l with
  | [] => [p]
  | q :: l' =>
      if Qle_bool (fst p) (fst q) then p :: q :: l'
      else q :: insert_sorted p l'
  end.

Definition np_argsort (v : list Q) : list nat :=
  map snd (foldr insert_sorted [] (zip v (seq 0 (length v)))).

(** [v[idx]] with an index array (from [argsort], so in range). *)
Definition fancy {A} (v : list A) (idx : list nat) : list A :=
  omap (fun i => v !! i) idx.

(** [a.copy()]: arrays are values here, a copy is the same value at a new
    place; the places are modelled in [Module Heap]. *)
Definition np_copy {A} (a : A) : A := a.

(** [lib.as_list(x)]: a list is returned as it is. *)
Definition as_list {A} (x : list A) : list A := x.

(** ** The container *)

Record MeshData : Type := mk_MeshData {
  data : ndarray;
  axes : list axis;
  labels : list string;
  units : list string
}.

Definition set_data (d : ndarray) (self : MeshData) : MeshData :=
  mk_MeshData d (axes self) (labels self) (units self).

Definition set_axes (a : list axis) (self : MeshData) : MeshData :=
  mk_MeshData (data self) a (labels self) (units self).

(** [MeshData.__init__] *)
Definition MeshData_init (data0 : ndarray) (axes0 : list axis)
    (labels0 units0 : option (list string)) : result MeshData :=
  let self_data := np_copy data0 in
  let self_axes := map np_copy axes0 in
  if negb (ndim self_data =? length axes0)
  then inl (ValueError msg_num_axes)
  else if negb (bool_decide (shape self_data = map length self_axes))
  then inl (ValueError msg_shape_axes)
  else
    let self_labels :=
      match labels0 with
      | None => map (fun _ => EmptyString) self_axes
      | Some l => l
      end in
    let self_units :=
      match units0 with
      | None => map (fun _ => EmptyString) self_axes
      | Some l => l
      end in
    inr (mk_MeshData self_data self_axes self_labels self_units).

(** ** Methods: state and exceptions *)

(** A method body runs on the instance and returns either an exception
    or a value, together with the instance as the body left it. *)
Definition M (A : Type) : Type := MeshData -> result A * MeshData.

Definition ret {A} (a : A) : M A := fun self => (inr a, self).

Definition raise {A} (e : exn) : M A := fun self => (inl e, self).

Definition bind {A B} (c : M A) (k : A -> M B) : M B :=
  fun self =>
    match c self with
    | (inl e, self') => (inl e, self')
    | (inr a, self') => k a self'
    end.

Definition lift {A} (r : result A) : M A :=
  fun self => (r, self).

Definition get : M MeshData := fun self => (inr self, self).

Definition modify (f : MeshData -> MeshData) : M unit :=
  fun self => (inr tt, f self).

Declare Scope meth_scope.
Delimit Scope meth_scope with meth.
Notation "x <- c ;; k" := (bind c (fun x => k))
  (at level 100, c at next level, right associativity) : meth_scope.
Notation "c ;;; k" := (bind c (fun _ => k))
  (at level 100, right associativity) : meth_scope.

Local Open Scope meth_scope.

(** [self.axes[j]] *)
Definition get_axis (j : Z) : M axis :=
  self <- get ;; lift (py_get (axes self) j).

(** [self.axes[j] = a] *)
Definition set_axis (j : Z) (a : axis) : M unit :=
  self <- get ;;
  l <- lift (py_set (axes self) j a) ;;
  modify (set_axes l).

(** [MeshData.copy] *)
Definition copy (self : MeshData) : result MeshData :=
  MeshData_init (data self) (axes self) (Some (labels self))
                (Some (units self)).

(** [MeshData.normalize] *)
Definition normalize : M unit :=
  self <- get ;;
  m <- lift (np_max (data self)) ;;
  d <- lift (itruediv (data self) m) ;;
  modify (set_data d).

(** The slice [limit] takes along an axis [ax] requested with the pair
    [lim], the [i]-th of the call. *)
Definition limit_slice {arith : Arith} (ax : axis) (lim : Q * Q) (i : nat)
    : result slice :=
  let '(x1, x2) := lim in
  match nearest ax x1 with
  | inl e => inl e
  | inr idx1 =>
      match nearest ax x2 with
      | inl e => inl e
      | inr idx2 =>
          if idx2 <? idx1 then inr (SliceRange idx2 (idx1 + 1))
          else if idx1 =? idx2 then inl (ValueError (msg_empty_slice i))
          else inr (SliceRange idx1 (idx2 + 1))
      end
  end.

(** The loop of [limit] over the dimensions [js], with the slices
    collected so far. *)
Fixpoint limit_loop {arith : Arith} (limits : list (Q * Q))
    (axes_arg : list Z) (js : list nat) (slices : list slice)
    : M (list slice) :=
  match js with
  | [] => ret slices
  | j :: js' =>
      s <- (if py_in (Z.of_nat j) axes_arg then
              match py_index (Z.of_nat j) axes_arg with
              | None => raise (ValueError "is not in list")
              | Some i =>
                  ax <- get_axis (Z.of_nat j) ;;
                  lim <- lift (py_get limits (Z.of_nat i)) ;;
                  lift (limit_slice ax lim i)
              end
            else ret SliceAll) ;;
      ax <- get_axis (Z.of_nat j) ;;
      set_axis (Z.of_nat j) (apply_slice s ax) ;;;
      limit_loop limits axes_arg js' (slices ++ [s])
  end.

(** [MeshData.limit] *)
Definition limit {arith : Arith} (limits : list (Q * Q))
    (axes_arg : option (list Z)) : M unit :=
  self <- get ;;
  let axes_arg :=
    match axes_arg with
    | None => map Z.of_nat (seq 0 (ndim (data self)))
    | Some a => a
    end in
  let axes_arg := as_list axes_arg in
  if negb (length axes_arg =? length limits)
  then raise (ValueError msg_num_limits)
  else
    slices <- limit_loop limits axes_arg (seq 0 (ndim (data self))) [] ;;
    self' <- get ;;
    d <- lift (getitem (data self') slices) ;;
    modify (set_data d).

(** The loop of [flip] over the requested axes. *)
Fixpoint flip_loop (axes_arg : list Z) (slices : list slice) : M (list slice) :=
  match axes_arg with
  | [] => ret slices
  | ax :: rest =>
      a <- get_axis ax ;;
      set_axis ax (apply_slice SliceRev a) ;;;
      slices' <- lift (py_set slices ax SliceRev) ;;
      flip_loop rest slices'
  end.

(** [MeshData.flip]. The data is indexed by the list [slices] itself,
    where [limit] indexes by a tuple made from its list. *)
Definition flip (axes_arg : list Z) : M unit :=
  if length axes_arg =? 0 then ret tt
  else
    let axes_arg := as_list axes_arg in
    self <- get ;;
    slices <- flip_loop axes_arg (map (fun _ => SliceAll) (axes self)) ;;
    self' <- get ;;
    d <- lift (getitem_list (data self') slices) ;;
    modify (set_data d).

(** ** Methods that call the collaborators

    [lib.marginals], [lib.limit], [lib.build_coords] and SciPy's
    [RegularGridInterpolator] are not part of this module: they are
    parameters of the methods that call them. An interpolant is built
    first and evaluated on a grid later, as the code does. *)
Section Collaborators.

Context {arith : Arith}.
Variable lib_marginals : ndarray -> list Z -> result (list (list Q)).
Variable lib_limit : axis -> list Q -> Q -> Q -> result (Q * Q).
Variables Grid Interp : Type.
Variable build_coords : list axis -> result Grid.
Variable RegularGridInterpolator : list axis -> ndarray -> result Interp.
Variable interp_call : Interp -> Grid -> result ndarray.

(** The loop of [autolimit] over [enumerate(axes)]. *)
Fixpoint autolimit_loop (marginals : list (list Q)) (threshold padding : Q)
    (ijs : list (nat * Z)) (limits : list (Q * Q)) : M (list (Q * Q)) :=
  match ijs with
  | [] => ret limits
  | (i, j) :: rest =>
      ax <- get_axis j ;;
      m <- lift (py_get marginals (Z.of_nat i)) ;;
      lim <- lift (lib_limit ax m threshold padding) ;;
      autolimit_loop marginals threshold padding rest (limits ++ [lim])
  end.

(** [MeshData.autolimit] *)
Definition autolimit (axes_arg : list Z) (threshold padding : Q) : M unit :=
  self <- get ;;
  let axes_arg :=
    if length axes_arg =? 0
    then map Z.of_nat (seq 0 (ndim (data self)))
    else axes_arg in
  marginals <- lift (lib_marginals (data self) axes_arg) ;;
  limits <- autolimit_loop marginals threshold padding
              (zip (seq 0 (length axes_arg)) axes_arg) [] ;;
  limit limits (Some axes_arg).

(** The first loop of [interpolate]: a target left [None] becomes the
    axis the container has; [targets] is the two-element list
    [[axis1, axis2]]. *)
Fixpoint fill_targets (js : list nat) (targets : list (option axis))
    : M (list (option axis)) :=
  match js with
  | [] => ret targets
  | i :: rest =>
      t <- lift (py_get targets (Z.of_nat i)) ;;
      match t with
      | None =>
          a <- get_axis (Z.of_nat i) ;;
          targets' <- lift (py_set targets (Z.of_nat i) (Some a)) ;;
          fill_targets rest targets'
      | Some _ => fill_targets rest targets
      end
  end.

(** The sorting loop of [interpolate]: [orig_axes] is the list
    [self.axes] itself, so the sorted axes are written to the
    container. *)
Fixpoint sort_loop (js : list nat) (d : ndarray) : M ndarray :=
  match js with
  | [] => ret d
  | i :: rest =>
      a <- get_axis (Z.of_nat i) ;;
      let idx := np_argsort a in
      set_axis (Z.of_nat i) (fancy a idx) ;;;
      d' <- lift (np_take d idx i) ;;
      sort_loop rest d'
  end.

Fixpoint all_given (targets : list (option axis)) : option (list axis) :=
  match targets with
  | [] => Some []
  | None :: _ => None
  | Some a :: rest => cons a <$> all_given rest
  end.

(** [MeshData.interpolate]. With fewer than two dimensions a target
    stays [None]; the grid built from it has one coordinate more than
    the interpolant has axes, and evaluating the interpolant raises. *)
Definition interpolate (axis1 axis2 : option axis) (degree : nat)
    (sorted : bool) : M unit :=
  self <- get ;;
  targets <- fill_targets (seq 0 (ndim (data self))) [axis1; axis2] ;;
  let data0 := np_copy (data self) in
  d <- (if negb sorted
        then sort_loop (seq 0 (length (axes self))) data0
        else ret data0) ;;
  self' <- get ;;
  dataf <- lift (RegularGridInterpolator (axes self') d) ;;
  match all_given targets with
  | None => raise (ValueError msg_grid_dim)
  | Some tg =>
      grid <- lift (build_coords tg) ;;
      out <- lift (interp_call dataf grid) ;;
      modify (set_data out) ;;;
      modify (set_axes tg)
  end.

(** The mutating calls of the container. *)
Inductive call : Type :=
| Limit (limits : list (Q * Q)) (axes_arg : option (list Z))
| Autolimit (axes_arg : list Z) (threshold padding : Q)
| Interpolate (axis1 axis2 : option axis) (degree : nat) (sorted : bool)
| Flip (axes_arg : list Z)
| Normalize.

Definition exec (c : call) : M unit :=
  match c with
  | Limit limits axes_arg => limit limits axes_arg
  | Autolimit axes_arg threshold padding =>
      autolimit axes_arg threshold padding
  | Interpolate axis1 axis2 degree sorted =>
      interpolate axis1 axis2 degree sorted
  | Flip axes_arg => flip axes_arg
  | Normalize => normalize
  end.

(** The calls that go through [limit], which cuts the axes in its loop
    and the data after it. *)
Definition through_limit (c : call) : bool :=
  match c with
  | Limit _ _ | Autolimit _ _ _ => true
  | _ => false
  end.

(** The containers a program can hold: made by the constructor from an
    array (rectangular, as every array is), then changed by calls,
    whether they returned or raised; only a call that goes through
    [limit] has to have returned, or to have raised before it wrote to
    the container. *)
Inductive reachable : MeshData -> Prop :=
| reach_init data0 axes0 labels0 units0 self :
    rect data0 = true ->
    MeshData_init data0 axes0 labels0 units0 = inr self ->
    reachable self
| reach_call c self r self' :
    reachable self ->
    exec c self = (r, self') ->
    (through_limit c = true -> r = inr tt \/ self' = self) ->
    reachable self'.

End Collaborators.

(** ** Properties of containers and calls *)

(** The shape invariant of the container: as many axes as dimensions,
    and each axis as long as its dimension. *)
Definition shape_invariant (self : MeshData) : Prop :=
  length (axes self) = ndim (data self) /\
  forall j, j < ndim (data self) ->
    length <$> (axes self !! j) = shape (data self) !! j.

(** The same, as one equation. *)
Definition consistent (self : MeshData) : Prop :=
  map length (axes self) = shape (data self).

(** The axes a call of [limit] works on: all, when none are given. *)
Definition limit_axes (self : MeshData) (axes_arg : option (list Z))
    : list Z :=
  default (map Z.of_nat (seq 0 (ndim (data self)))) axes_arg.

(** [limit] reports an empty slice. *)
Definition raises_empty_slice {A} (r : result A) : Prop :=
  exists i, r = inl (ValueError (msg_empty_slice i)).

(** Dimension [j] is requested by a call of [limit] with the pairs
    [limits] and [axes=axes_arg], and both bounds of its pair lie nearest
    to the same sample. *)
Definition collapses {arith : Arith} (self : MeshData)
    (limits : list (Q * Q)) (axes_arg : list Z) (j : nat) : Prop :=
  j < ndim (data self) /\
  exists i ax x1 x2 k,
    py_index (Z.of_nat j) axes_arg = Some i /\
    axes self !! j = Some ax /\
    limits !! i = Some (x1, x2) /\
    nearest ax x1 = inr k /\ nearest ax x2 = inr k.

(** A pair, or the same pair with its bounds exchanged. *)
Definition same_or_swapped (p q : Q * Q) : Prop :=
  q = p \/ q = (snd p, fst p).

Fixpoint strictly_increasing (a : axis) : bool :=
  match a with
  | x :: ((y :: _) as a') => negb (Qle_bool y x) && strictly_increasing a'
  | _ => true
  end.

(** The slices [limit] takes along the dimensions [js] of a container
    with the axes [axs], or the first exception on the way. *)
Definition slice_at {arith : Arith} (limits : list (Q * Q))
    (axes_arg : list Z) (axs : list axis) (j : nat) : result slice :=
  if py_in (Z.of_nat j) axes_arg then
    match py_index (Z.of_nat j) axes_arg with
    | None => inl (ValueError "is not in list")
    | Some i =>
        match py_get axs (Z.of_nat j) with
        | inl e => inl e
        | inr ax =>
            match py_get limits (Z.of_nat i) with
            | inl e => inl e
            | inr lim => limit_slice ax lim i
            end
        end
    end
  else
    match py_get axs (Z.of_nat j) with
    | inl e => inl e
    | inr _ => inr SliceAll
    end.

Fixpoint plan {arith : Arith} (limits : list (Q * Q)) (axes_arg : list Z)
    (axs : list axis) (js : list nat) : result (list slice) :=
  match js with
  | [] => inr []
  | j :: js' =>
      match slice_at limits axes_arg axs j with
      | inl e => inl e
      | inr s =>
          match plan limits axes_arg axs js' with
          | inl e => inl e
          | inr ss => inr (s :: ss)
          end
      end
  end.

(** ** Collaborators for the examples *)

(** Arithmetic without rounding and without overflow, as float64 and
    int64 have it on the small integers of the examples. *)
#[global] Instance exact_arith : Arith := {| abs_sub a x := Qabs (a - x) |}.

#[global] Instance Q_eq_dec : EqDecision Q.
Proof. solve_decision. Defined.

Fixpoint zeros_nd (sh : list nat) : nd :=
  match sh with
  | [] => Scalar 0
  | n :: sh' => Arr (replicate n (zeros_nd sh'))
  end.

Definition zeros (sh : list nat) : ndarray :=
  mk_ndarray float64 sh (zeros_nd sh).

Definition sum_Q (l : list Q) : Q := fold_left Qplus l 0%Q.

(** The profile of [d] along dimension [k]: the sums over the other
    dimensions. *)
Fixpoint marginal (k : nat) (d : nd) {struct k} : list Q :=
  match d with
  | Scalar _ => []
  | Arr rows =>
      match k with
      | 0 => map (fun r => sum_Q (flatten r)) rows
      | S k' =>
          match map (marginal k') rows with
          | [] => []
          | p :: ps => fold_left (zip_with Qplus) ps p
          end
      end
  end.

Definition example_marginals (d : ndarray) (axes_arg : list Z)
    : result (list (list Q)) :=
  inr (map (fun j => marginal (Z.to_nat j) (items d)) axes_arg).

(** The whole range of the axis, whatever the marginal. *)
Definition example_limit (ax : axis) (m : list Q) (threshold padding : Q)
    : result (Q * Q) :=
  match ax with
  | [] => inl (ValueError "empty axis")
  | x :: rest => inr (x, List.last rest x)
  end.

Definition example_build_coords (tg : list axis) : result (list axis) :=
  inr tg.

(** An interpolant remembers its grid and its values; the grid has to be
    strictly increasing and to fit the values. *)
Definition example_interpolator (src : list axis) (d : ndarray)
    : result (list axis * ndarray) :=
  if bool_decide (shape d = map length src)
     && forallb strictly_increasing src
  then inr (src, d)
  else inl (ValueError "The points must be strictly ascending").

(** It returns its values, as floating numbers, on its own grid and the
    fill value elsewhere. *)
Definition example_call (f : list axis * ndarray) (grid : list axis)
    : result ndarray :=
  if bool_decide (grid = fst f) then inr (astype_float (snd f))
  else inr (zeros (map length grid)).

Definition example_exec : call -> M unit :=
  exec example_marginals example_limit (list axis) (list axis * ndarray)
       example_build_coords example_interpolator example_call.

(** ** Example containers *)

Definition Qs (l : list Z) : list Q := map inject_Z l.

Definition nd2 (rows : list (list Z)) : nd :=
  Arr (map (fun r => Arr (map (fun z => Scalar (inject_Z z)) r)) rows).

Definition data_3x3 : ndarray :=
  mk_ndarray float64 [3; 3] (nd2 [[1; 2; 3]; [4; 5; 6]; [7; 8; 9]]%Z).

Definition mesh_3x3 : MeshData :=
  mk_MeshData data_3x3 [Qs [0; 1; 2]%Z; Qs [0; 1; 2]%Z]
              [EmptyString; EmptyString] [EmptyString; EmptyString].

Definition data_2x2 : ndarray :=
  mk_ndarray float64 [2; 2] (nd2 [[2; 4]; [6; 8]]%Z).

Definition mesh_2x2 : MeshData :=
  mk_MeshData data_2x2 [Qs [0; 1]%Z; Qs [0; 1]%Z]
              [EmptyString; EmptyString] [EmptyString; EmptyString].

(** The same elements held as integers. *)
Definition mesh_2x2_int : MeshData :=
  mk_MeshData (mk_ndarray int64 [2; 2] (nd2 [[2; 4]; [6; 8]]%Z))
              [Qs [0; 1]%Z; Qs [0; 1]%Z]
              [EmptyString; EmptyString] [EmptyString; EmptyString].

Definition data_5x5 : ndarray :=
  mk_ndarray float64 [5; 5]
    (nd2 (map (fun i => map (fun k => (5 * i + k)%Z) [0; 1; 2; 3; 4]%Z)
              [0; 1; 2; 3; 4]%Z)).

Definition data_2x2x2 : ndarray :=
  mk_ndarray float64 [2; 2; 2]
    (Arr [nd2 [[1; 2]; [3; 4]]%Z; nd2 [[5; 6]; [7; 8]]%Z]).

Definition mesh_2x2x2 : MeshData :=
  mk_MeshData data_2x2x2 [Qs [0; 1]%Z; Qs [0; 1]%Z; Qs [0; 1]%Z]
              [EmptyString; EmptyString; EmptyString]
              [EmptyString; EmptyString; EmptyString].

(** ** Objects and references

    Python attributes hold references. Whether two containers share an
    object is decided here: arrays and lists live at places of a heap,
    an instance holds the places of its four attributes, and [self.axes]
    is a list of places of arrays. *)
Module Heap.

Abbreviation loc := nat.

Inductive obj : Type :=
| Ndarray (a : ndarray)
| Axis1 (a : axis)
| RefList (l : list loc)
| StrList (l : list string).

Abbreviation heap := (list obj).

Record instance : Type := mk_instance {
  data_at : loc;
  axes_at : loc;
  labels_at : loc;
  units_at : loc
}.

(** A new object gets a place no reference points to yet. *)
Definition alloc (o : obj) (h : heap) : loc * heap := (length h, h ++ [o]).

(** In-place mutation of the object at a place. *)
Definition store (l : loc) (o : obj) (h : heap) : heap := <[l:=o]> h.

Definition read_ndarray (h : heap) (l : loc) : option ndarray :=
  match h !! l with Some (Ndarray a) => Some a | _ => None end.

Definition read_axis (h : heap) (l : loc) : option axis :=
  match h !! l with Some (Axis1 a) => Some a | _ => None end.

Definition read_refs (h : heap) (l : loc) : option (list loc) :=
  match h !! l with Some (RefList r) => Some r | _ => None end.

Definition read_strs (h : heap) (l : loc) : option (list string) :=
  match h !! l with Some (StrList s) => Some s | _ => None end.

Fixpoint read_axes (h : heap) (rs : list loc) : option (list axis) :=
  match rs with
  | [] => Some []
  | r :: rs' =>
      match read_axis h r, read_axes h rs' with
      | Some a, Some l => Some (a :: l)
      | _, _ => None
      end
  end.

(** The attributes of an instance, read through its references. *)
Definition view (h : heap) (o : instance) : option MeshData :=
  match read_ndarray h (data_at o), read_refs h (axes_at o),
        read_strs h (labels_at o), read_strs h (units_at o) with
  | Some d, Some rs, Some ls, Some us =>
      match read_axes h rs with
      | Some axs => Some (mk_MeshData d axs ls us)
      | None => None
      end
  | _, _, _, _ => None
  end.

(** [[np.array(a).copy() for a in axes]]: a new array for every axis. *)
Fixpoint copy_axes (h : heap) (rs : list loc) : option (list loc * heap) :=
  match rs with
  | [] => Some ([], h)
  | r :: rs' =>
      match read_axis h r with
      | None => None
      | Some a =>
          let '(l, h1) := alloc (Axis1 (np_copy a)) h in
          match copy_axes h1 rs' with
          | None => None
          | Some (ls, h2) => Some (l :: ls, h2)
          end
      end
  end.

(** [MeshData.__init__] on references: the data and the axes are copied
    to new places, [labels] and [units] are stored as they are given
    and only made anew when they are [None]. The result is [None] when a
    reference does not hold an object of the expected kind. *)
Definition init (h : heap) (data0 : loc) (axes0 : list loc)
    (labels0 units0 : option loc) : option (result instance * heap) :=
  match read_ndarray h data0 with
  | None => None
  | Some d =>
      let '(dl, h1) := alloc (Ndarray (np_copy d)) h in
      match copy_axes h1 axes0 with
      | None => None
      | Some (als, h2) =>
          let '(al, h3) := alloc (RefList als) h2 in
          match read_axes h3 als with
          | None => None
          | Some axs =>
              if negb (ndim d =? length axes0)
              then Some (inl (ValueError msg_num_axes), h3)
              else if negb (bool_decide (shape d = map length axs))
              then Some (inl (ValueError msg_shape_axes), h3)
              else
                let '(ll, h4) :=
                  match labels0 with
                  | None => alloc (StrList (map (fun _ => EmptyString) als)) h3
                  | Some r => (r, h3)
                  end in
                let '(ul, h5) :=
                  match units0 with
                  | None => alloc (StrList (map (fun _ => EmptyString) als)) h4
                  | Some r => (r, h4)
                  end in
                Some (inr (mk_instance dl al ll ul), h5)
          end
      end
  end.

(** [MeshData.copy] on references. *)
Definition copy (h : heap) (o : instance) : option (result instance * heap) :=
  match read_refs h (axes_at o) with
  | None => None
  | Some rs => init h (data_at o) rs (Some (labels_at o)) (Some (units_at o))
  end.

(** [o.labels[i] = s] and [o.units[i] = s], the item assignments of a
    Python list. *)
Definition set_label (o : instance) (i : Z) (s : string) (h : heap)
    : option (result unit * heap) :=
  match read_strs h (labels_at o) with
  | None => None
  | Some ls =>
      match py_set ls i s with
      | inl e => Some (inl e, h)
      | inr ls' => Some (inr tt, store (labels_at o) (StrList ls') h)
      end
  end.

Definition set_unit (o : instance) (i : Z) (s : string) (h : heap)
    : option (result unit * heap) :=
  match read_strs h (units_at o) with
  | None => None
  | Some us =>
      match py_set us i s with
      | inl e => Some (inl e, h)
      | inr us' => Some (inr tt, store (units_at o) (StrList us') h)
      end
  end.

(** A heap with one container: a 2x2 array, two axes, three labels and
    three units. *)
Definition heap0 : heap :=
  [ Ndarray data_2x2; Axis1 (Qs [0; 1]%Z); Axis1 (Qs [0; 1]%Z);
    RefList [1; 2];
    StrList ["t"; "w"; "I"]%string; StrList ["s"; "Hz"; "au"]%string ].

Definition mesh0 : instance := mk_instance 0 3 4 5.

End Heap.

(** ** Further notions for the properties below *)

(** [k] is the first position of a minimum of [v]. *)
Definition first_min (v : list Q) (k : nat) : Prop :=
  exists m,
    v !! k = Some m /\
    (forall i y, v !! i = Some y -> (m <= y)%Q) /\
    (forall i y, i < k -> v !! i = Some y -> (m < y)%Q).

(** A slice that takes every one of [n] elements. *)
Definition whole_slice (s : slice) (n : nat) : Prop :=
  s = SliceAll \/ s = SliceRange 0 n.

(** An axis as it was, or reversed. *)
Definition same_or_reversed {A} (a' a : list A) : Prop :=
  a' = a \/ a' = rev a.

(** The axes [autolimit] works on: all, when none are given. *)
Definition autolimit_axes (self : MeshData) (axes_arg : list Z) : list Z :=
  if length axes_arg =? 0
  then map Z.of_nat (seq 0 (ndim (data self)))
  else axes_arg.

(** The order [argsort] sorts the pairs of a value and its position by. *)
Definition pair_le (p q : Q * nat) : Prop := (fst p <= fst q)%Q.

(** [a[np.argsort(a)]], the axis as the sorting loop leaves it. *)
Definition sort_axis (a : axis) : axis := fancy a (np_argsort a).

(** The data as the sorting loop of [interpolate] leaves it on two
    axes: taken at the sorted positions along dimension 0, then along
    dimension 1. *)
Definition sort_data_2d (a0 a1 : axis) (d : ndarray) : ndarray :=
  let d1 := mk_ndarray (dtype d)
                       (take_shape 0 (length (np_argsort a0)) (shape d))
                       (take_nd 0 (np_argsort a0) (items d)) in
  mk_ndarray (dtype d) (take_shape 1 (length (np_argsort a1)) (shape d1))
             (take_nd 1 (np_argsort a1) (items d1)).

(** A 3x3 container whose first axis has a sample twice and is not
    sorted. *)
Definition mesh_3x3_unsorted : MeshData :=
  mk_MeshData data_3x3 [Qs [2; 1; 1]%Z; Qs [0; 1; 2]%Z]
              [EmptyString; EmptyString] [EmptyString; EmptyString].

(** What [Heap.mesh0] reads in [Heap.heap0]. *)
Definition mesh0_view : MeshData :=
  mk_MeshData data_2x2 [Qs [0; 1]%Z; Qs [0; 1]%Z]
              ["t"; "w"; "I"]%string ["s"; "Hz"; "au"]%string.

(** [j] is an index of a list of [n] elements, from the start or,
    negative, from the end. *)
Definition index_in_range (n : nat) (j : Z) : Prop :=
  (- Z.of_nat n <= j < Z.of_nat n)%Z.

(** * Properties *)

(** ** The monad of method bodies *)

Lemma bind_ok {A B} (c : M A) (k : A -> M B) self a self1 :
  c self = (inr a, self1) -> bind c k self = k a self1.
Proof. intros H. unfold bind. now rewrite H. Qed.

Lemma bind_raise {A B} (c : M A) (k : A -> M B) self e self1 :
  c self = (inl e, self1) -> bind c k self = (inl e, self1).
Proof. intros H. unfold bind. now rewrite H. Qed.

Lemma bind_inr_inv {A B} (c : M A) (k : A -> M B) self b self' :
  bind c k self = (inr b, self') ->
  exists a self1, c self = (inr a, self1) /\ k a self1 = (inr b, self').
Proof.
  unfold bind. destruct (c self) as [[e | a] self1]; intros H.
  - discriminate.
  - now exists a, self1.
Qed.

Lemma bind_get {B} (k : MeshData -> M B) self :
  bind get k self = k self self.
Proof. reflexivity. Qed.

Lemma bind_lift {A B} (r : result A) (k : A -> M B) self :
  bind (lift r) k self =
  match r with inl e => (inl e, self) | inr a => k a self end.
Proof. unfold bind, lift. now destruct r. Qed.

Lemma bind_modify {B} (f : MeshData -> MeshData) (k : unit -> M B) self :
  bind (modify f) k self = k tt (f self).
Proof. reflexivity. Qed.

(** ** Python indexing *)

Lemma py_pos_lt {A} (l : list A) i k : py_pos l i = Some k -> k < length l.
Proof.
  unfold py_pos.
  destruct ((0 <=? i)%Z && (i <? Z.of_nat (length l))%Z) eqn:E1.
  - intros [= <-]. apply andb_prop in E1 as [H1 H2]. lia.
  - destruct ((- Z.of_nat (length l) <=? i)%Z && (i <? 0)%Z) eqn:E2;
      [| discriminate].
    intros [= <-]. apply andb_prop in E2 as [H1 H2]. lia.
Qed.

Lemma py_pos_nat {A} (l : list A) j :
  py_pos l (Z.of_nat j) = if j <? length l then Some j else None.
Proof.
  unfold py_pos.
  destruct (j <? length l) eqn:E.
  - apply Nat.ltb_lt in E.
    replace ((0 <=? Z.of_nat j)%Z) with true by lia.
    replace ((Z.of_nat j <? Z.of_nat (length l))%Z) with true by lia.
    simpl. now rewrite Nat2Z.id.
  - apply Nat.ltb_ge in E.
    replace ((Z.of_nat j <? Z.of_nat (length l))%Z) with false by lia.
    replace ((Z.of_nat j <? 0)%Z) with false by lia.
    now rewrite !andb_false_r.
Qed.

Lemma py_get_nat {A} (l : list A) j :
  py_get l (Z.of_nat j) =
  match l !! j with
  | Some x => inr x
  | None => inl (IndexError msg_list_index)
  end.
Proof.
  unfold py_get. rewrite py_pos_nat.
  destruct (j <? length l) eqn:E; [reflexivity |].
  apply Nat.ltb_ge in E. now rewrite (lookup_ge_None_2 l j).
Qed.

Lemma py_set_nat {A} (l : list A) j x :
  j < length l -> py_set l (Z.of_nat j) x = inr (<[j:=x]> l).
Proof.
  intros H. unfold py_set. rewrite py_pos_nat.
  apply Nat.ltb_lt in H. now rewrite H.
Qed.

Lemma py_pos_length {A B} (l : list A) (l' : list B) i :
  length l = length l' -> py_pos l i = py_pos l' i.
Proof. intros H. unfold py_pos. now rewrite H. Qed.

Lemma get_axis_run j self :
  get_axis j self = (py_get (axes self) j, self).
Proof. reflexivity. Qed.

Lemma set_axis_run j a self :
  set_axis j a self =
  match py_set (axes self) j a with
  | inl e => (inl e, self)
  | inr l => (inr tt, set_axes l self)
  end.
Proof.
  unfold set_axis. rewrite bind_get, bind_lift.
  now destruct (py_set (axes self) j a).
Qed.

Lemma bind_assoc {A B C} (c : M A) (k1 : A -> M B) (k2 : B -> M C) self :
  bind (bind c k1) k2 self = bind c (fun a => bind (k1 a) k2) self.
Proof. unfold bind. destruct (c self) as [[e | a] s1]; reflexivity. Qed.

Lemma bind_ret {A B} (a : A) (k : A -> M B) self :
  bind (ret a) k self = k a self.
Proof. reflexivity. Qed.

Lemma bind_get_axis {B} j (k : axis -> M B) self :
  bind (get_axis j) k self =
  match py_get (axes self) j with
  | inl e => (inl e, self)
  | inr a => k a self
  end.
Proof. unfold bind. rewrite get_axis_run. now destruct (py_get _ _). Qed.

Lemma bind_set_axis {B} j a (k : unit -> M B) self :
  bind (set_axis j a) k self =
  match py_set (axes self) j a with
  | inl e => (inl e, self)
  | inr l => k tt (set_axes l self)
  end.
Proof. unfold bind. rewrite set_axis_run. now destruct (py_set _ _ _). Qed.

(** One round of a method body: the bind at the head is run. *)
Ltac step :=
  repeat first
    [ rewrite bind_assoc | rewrite bind_get | rewrite bind_ret
    | rewrite bind_get_axis | rewrite bind_set_axis
    | rewrite bind_lift | rewrite bind_modify ];
  cbv beta.

(** ** [interpolate] beyond two dimensions *)

Section Interpolate.

Context (Grid Interp : Type).
Context (build_coords : list axis -> result Grid).
Context (RegularGridInterpolator : list axis -> ndarray -> result Interp).
Context (interp_call : Interp -> Grid -> result ndarray).

#[local] Abbreviation run_interpolate :=
  (interpolate Grid Interp build_coords RegularGridInterpolator interp_call).

(** The first loop reads the container and never writes to it; it
    stops with [IndexError] at the first dimension that has no slot in
    [targets]. *)
Lemma fill_targets_overrun js : forall targets self,
  (exists i, In i js /\ length targets <= i) ->
  fill_targets js targets self = (inl (IndexError msg_list_index), self).
Proof.
  induction js as [| i rest IH]; intros targets self [i0 [Hin Hlen]].
  - destruct Hin.
  - cbn [fill_targets]. rewrite bind_lift, py_get_nat.
    destruct (targets !! i) as [t |] eqn:Ht; [| reflexivity].
    assert (Hi : i < length targets) by (eapply lookup_lt_Some; eassumption).
    assert (Hrest : In i0 rest) by (destruct Hin as [-> | ?]; [lia | assumption]).
    destruct t as [a |].
    + apply IH. eauto.
    + unfold bind at 1. rewrite get_axis_run.
      destruct (py_get (axes self) (Z.of_nat i)) as [e | a] eqn:Ha.
      * rewrite py_get_nat in Ha.
        destruct (axes self !! i); [discriminate |]. now injection Ha as <-.
      * rewrite bind_lift, py_set_nat by assumption.
        apply IH. exists i0. split; [assumption |].
        now rewrite length_insert.
Qed.

(** C10. On a container with more than two dimensions [interpolate]
    raises the index error of a list (the list of targets has the two
    slots [axis1] and [axis2]) and leaves the data and the axes as they
    were; so no call on more than two dimensions returns. *)
Theorem interpolate_beyond_two_dims self axis1 axis2 degree sorted :
  2 < ndim (data self) ->
  run_interpolate axis1 axis2 degree sorted self
  = (inl (IndexError msg_list_index), self) /\
  (forall self',
      run_interpolate axis1 axis2 degree sorted self <> (inr tt, self')).
Proof.
  intros Hn.
  assert (Hraise : run_interpolate axis1 axis2 degree sorted self
                   = (inl (IndexError msg_list_index), self)).
  { unfold interpolate. rewrite bind_get.
    apply bind_raise, fill_targets_overrun.
    exists 2. split; [| simpl; lia].
    apply in_seq. lia. }
  split; [exact Hraise |].
  intros self'. rewrite Hraise. discriminate.
Qed.

End Interpolate.

(** The three-dimensional example container. *)
Lemma interpolate_beyond_two_dims_witness :
  2 < ndim (data mesh_2x2x2) /\
  interpolate (list axis) (list axis * ndarray) example_build_coords
    example_interpolator example_call None None 2 false mesh_2x2x2
  = (inl (IndexError msg_list_index), mesh_2x2x2).
Proof.
  split; [cbv; lia |].
  apply (interpolate_beyond_two_dims (list axis) (list axis * ndarray)
           example_build_coords example_interpolator example_call
           mesh_2x2x2 None None 2 false).
  cbv; lia.
Defined.

(** ** Construction *)

Lemma init_inv data0 axes0 labels0 units0 self :
  MeshData_init data0 axes0 labels0 units0 = inr self ->
  data self = data0 /\ axes self = axes0 /\
  ndim data0 = length axes0 /\ shape data0 = map length axes0 /\
  labels self = default (map (fun _ => EmptyString) axes0) labels0 /\
  units self = default (map (fun _ => EmptyString) axes0) units0.
Proof.
  unfold MeshData_init, np_copy. rewrite map_id.
  destruct (ndim data0 =? length axes0) eqn:E1; [| discriminate].
  destruct (bool_decide (shape data0 = map length axes0)) eqn:E2;
    [| discriminate].
  simpl. intros [= <-]. simpl.
  apply Nat.eqb_eq in E1. apply bool_decide_eq_true_1 in E2.
  repeat split; try assumption; now destruct labels0, units0.
Qed.

(** Without [labels] and [units] the constructor makes one empty string
    per axis. *)
Lemma default_labels_one_per_axis data0 axes0 self :
  MeshData_init data0 axes0 None None = inr self ->
  labels self = replicate (ndim (data self)) EmptyString /\
  units self = replicate (ndim (data self)) EmptyString.
Proof.
  intros H. apply init_inv in H as (-> & _ & Hn & _ & -> & ->). simpl.
  rewrite Hn. clear. split; induction axes0; simpl; congruence.
Qed.

(** C8. The constructor on a 2x2 array without [labels] and [units]:
    the defaults are two empty strings each, one per axis, and not the
    [ndim + 1] strings that the specification and the docstring of
    [__init__] ask for. *)
Theorem default_labels_2x2 :
  exists self,
    MeshData_init data_2x2 [Qs [0; 1]%Z; Qs [0; 1]%Z] None None = inr self /\
    labels self = [EmptyString; EmptyString] /\
    units self = [EmptyString; EmptyString] /\
    length (labels self) <> ndim (data self) + 1 /\
    length (units self) <> ndim (data self) + 1.
Proof.
  eexists. split; [reflexivity |]. cbv. repeat split; lia.
Qed.

(** ** Induction on nested elements *)

Lemma nd_rows_ind (P : nd -> Prop) :
  (forall x, P (Scalar x)) ->
  (forall rows, Forall P rows -> P (Arr rows)) ->
  forall d, P d.
Proof.
  intros HS HA.
  fix IH 1. intros [x | rows].
  - apply HS.
  - apply HA. induction rows as [| r rows IHrows]; constructor.
    + apply IH.
    + exact IHrows.
Qed.

Lemma flatten_map_nd f d : flatten (map_nd f d) = map f (flatten d).
Proof.
  induction d as [x | rows IH] using nd_rows_ind; [reflexivity |].
  simpl. induction IH as [| r rows Hr _ IHrows]; [reflexivity |].
  simpl. rewrite map_app. now f_equal.
Qed.

(** ** [normalize] *)

Lemma normalize_run self m :
  dtype (data self) = float64 ->
  np_max (data self) = inr m ->
  normalize self =
  (inr tt,
   set_data (mk_ndarray float64 (shape (data self))
                        (map_nd (fun x => x / m)%Q (items (data self)))) self).
Proof.
  intros Hdt H. unfold normalize. rewrite bind_get, bind_lift, H.
  cbv beta iota. rewrite bind_lift. unfold itruediv. now rewrite Hdt.
Qed.

Lemma normalize_empty self :
  flatten (items (data self)) = [] ->
  normalize self = (inl (ValueError msg_max_empty), self).
Proof.
  intros H. unfold normalize. rewrite bind_get, bind_lift.
  unfold np_max. now rewrite H.
Qed.

(** On an array of integers the maximum is found and the division
    raises. *)
Lemma normalize_integers self m :
  dtype (data self) = int64 ->
  np_max (data self) = inr m ->
  normalize self = (inl (TypeError msg_cast_divide), self).
Proof.
  intros Hdt H. unfold normalize. rewrite bind_get, bind_lift, H.
  cbv beta iota. rewrite bind_lift. unfold itruediv. now rewrite Hdt.
Qed.

(** Division by a positive number keeps the order, so it commutes with
    taking the maximum. *)
Lemma Qle_bool_div (m x y : Q) :
  (0 < m)%Q -> Qle_bool (x / m) (y / m) = Qle_bool x y.
Proof.
  intros Hm.
  assert (Hinv : (0 < / m)%Q) by now apply Qinv_lt_0_compat.
  destruct (Qle_bool x y) eqn:E.
  - apply Qle_bool_iff. apply Qle_bool_iff in E.
    unfold Qdiv. now apply Qmult_le_r.
  - destruct (Qle_bool (x / m) (y / m)) eqn:E'; [| reflexivity].
    apply Qle_bool_iff in E'. unfold Qdiv in E'.
    apply Qmult_le_r in E'; [| assumption].
    apply Qle_bool_iff in E'. congruence.
Qed.

Lemma qmax_div (m x y : Q) :
  (0 < m)%Q -> qmax (x / m) (y / m) = (qmax x y / m)%Q.
Proof.
  intros Hm. unfold qmax. rewrite Qle_bool_div by assumption.
  now destruct (Qle_bool x y).
Qed.

Lemma fold_qmax_div (m : Q) l : forall x,
  (0 < m)%Q ->
  fold_left qmax (map (fun y => y / m)%Q l) (x / m)%Q
  = (fold_left qmax l x / m)%Q.
Proof.
  induction l as [| y l IH]; intros x Hm; [reflexivity |].
  simpl. rewrite qmax_div by assumption. now apply IH.
Qed.

Lemma list_max_div (m : Q) l :
  (0 < m)%Q ->
  list_max_Q (map (fun y => y / m)%Q l)
  = (fun x => x / m)%Q <$> list_max_Q l.
Proof.
  intros Hm. destruct l as [| x l]; [reflexivity |].
  simpl. now rewrite fold_qmax_div.
Qed.

Lemma Qle_bool_false x y : Qle_bool x y = false -> (y < x)%Q.
Proof.
  intros H. apply Qnot_le_lt. intros Hle.
  apply Qle_bool_iff in Hle. congruence.
Qed.

(** The maximum is an element and no element is above it. *)
Lemma qmax_ge x y : (x <= qmax x y)%Q /\ (y <= qmax x y)%Q.
Proof.
  unfold qmax. destruct (Qle_bool x y) eqn:E.
  - apply Qle_bool_iff in E. split; [assumption | apply Qle_refl].
  - apply Qle_bool_false in E. split; [apply Qle_refl |].
    now apply Qlt_le_weak.
Qed.

Lemma fold_qmax_spec l : forall x,
  (x <= fold_left qmax l x)%Q /\
  (forall y, In y l -> (y <= fold_left qmax l x)%Q) /\
  (fold_left qmax l x = x \/ In (fold_left qmax l x) l).
Proof.
  induction l as [| z l IH]; intros x; simpl.
  - split; [apply Qle_refl |]. split; [tauto | now left].
  - destruct (IH (qmax x z)) as (H1 & H2 & H3).
    destruct (qmax_ge x z) as [Hx Hz]. split; [| split].
    + eapply Qle_trans; eassumption.
    + intros y [<- | Hy]; [eapply Qle_trans; eassumption | now apply H2].
    + destruct H3 as [H3 | H3]; [| now right; right].
      rewrite H3. unfold qmax. destruct (Qle_bool x z); auto.
Qed.

Lemma list_max_spec l m :
  list_max_Q l = Some m ->
  In m l /\ forall y, In y l -> (y <= m)%Q.
Proof.
  destruct l as [| x l]; [discriminate |]. intros [= <-].
  destruct (fold_qmax_spec l x) as (H1 & H2 & H3). split.
  - destruct H3 as [-> | H3]; [now left | now right].
  - intros y [<- | Hy]; [assumption | now apply H2].
Qed.

(** C9 (amended). On data of a floating type, [normalize] finds the
    maximum [m] of the data, an element that no element is above, and,
    when [m] is not zero, multiplies every element by the reciprocal
    of [m] and leaves everything else as it is; when the maximum is
    positive the maximum afterwards is 1. On [[2,4],[6,8]] the maximum
    is 8, so every element is multiplied by 1/8. *)
Theorem normalize_scales self m :
  dtype (data self) = float64 ->
  np_max (data self) = inr m ->
  ~ (m == 0)%Q ->
  In m (flatten (items (data self))) /\
  (forall y, In y (flatten (items (data self))) -> (y <= m)%Q) /\
  exists self',
    normalize self = (inr tt, self') /\
    items (data self') = map_nd (fun x => x * / m)%Q (items (data self)) /\
    shape (data self') = shape (data self) /\
    dtype (data self') = float64 /\
    axes self' = axes self /\ labels self' = labels self /\
    units self' = units self /\
    ((0 < m)%Q ->
     exists m', np_max (data self') = inr m' /\ (m' == 1)%Q).
Proof.
  intros Hdt Hmax Hm0.
  assert (Hspec : list_max_Q (flatten (items (data self))) = Some m).
  { unfold np_max in Hmax.
    destruct (list_max_Q (flatten (items (data self)))); [| discriminate].
    now injection Hmax as ->. }
  destruct (list_max_spec _ _ Hspec) as [Hin Hle].
  split; [exact Hin |]. split; [exact Hle |].
  eexists. split; [exact (normalize_run self m Hdt Hmax) |].
  cbn [data set_data items shape dtype axes labels units].
  do 6 (split; [reflexivity |]).
  intros Hpos. unfold np_max. cbn [items].
  rewrite flatten_map_nd, list_max_div, Hspec by assumption.
  simpl. eexists. split; [reflexivity |].
  unfold Qdiv. now apply Qmult_inv_r.
Qed.

(** The scenario on floating numbers: the maximum of [[2,4],[6,8]] is
    8, every element is multiplied by 1/8 and the maximum becomes 1. *)
Lemma normalize_scales_witness :
  In 8%Q (flatten (items (data mesh_2x2))) /\
  (forall y, In y (flatten (items (data mesh_2x2))) -> (y <= 8)%Q) /\
  exists self',
    normalize mesh_2x2 = (inr tt, self') /\
    items (data self') = map_nd (fun x => x * / 8)%Q (items (data mesh_2x2)) /\
    shape (data self') = shape (data mesh_2x2) /\
    dtype (data self') = float64 /\
    axes self' = axes mesh_2x2 /\ labels self' = labels mesh_2x2 /\
    units self' = units mesh_2x2 /\
    ((0 < 8)%Q ->
     exists m', np_max (data self') = inr m' /\ (m' == 1)%Q).
Proof.
  apply (normalize_scales mesh_2x2 8%Q); [reflexivity | reflexivity |].
  discriminate.
Defined.

(** C9, as stated, fails on an array of integers: on [[2,4],[6,8]]
    held as integers the in-place division raises [TypeError] and the
    data is left as it was, with the maximum 8. *)
Lemma normalize_raises_on_integers :
  dtype (data mesh_2x2_int) = int64 /\
  items (data mesh_2x2_int) = nd2 [[2; 4]; [6; 8]]%Z /\
  normalize mesh_2x2_int = (inl (TypeError msg_cast_divide), mesh_2x2_int) /\
  np_max (data (normalize mesh_2x2_int).2) = inr 8%Q.
Proof. repeat split. Qed.

(** ** [flip] *)

(** One round of the loop of [flip]. *)
Lemma flip_loop_step ax rest slices self :
  flip_loop (ax :: rest) slices self =
  match py_pos (axes self) ax with
  | None => (inl (IndexError msg_list_index), self)
  | Some k =>
      match axes self !! k with
      | None => (inl (IndexError msg_list_index), self)
      | Some a =>
          let self1 := set_axes (<[k:=rev a]> (axes self)) self in
          match py_set slices ax SliceRev with
          | inl e => (inl e, self1)
          | inr slices' => flip_loop rest slices' self1
          end
      end
  end.
Proof.
  cbn [flip_loop]. step. unfold py_get.
  destruct (py_pos (axes self) ax) as [k |] eqn:Hk; [| reflexivity].
  destruct (axes self !! k) as [a |] eqn:Ha; [| reflexivity].
  step. unfold py_set at 1. rewrite Hk. step. cbv zeta.
  now destruct (py_set slices ax SliceRev).
Qed.

(** The loop writes into the list of slices and keeps its length. *)
Lemma flip_loop_length axes_arg : forall slices self slices' self',
  flip_loop axes_arg slices self = (inr slices', self') ->
  length slices' = length slices.
Proof.
  induction axes_arg as [| ax rest IH]; intros slices self slices' self'.
  - now intros [= <- _].
  - rewrite flip_loop_step.
    destruct (py_pos (axes self) ax) as [k |]; [| discriminate].
    destruct (axes self !! k) as [a |]; [| discriminate].
    cbv zeta. unfold py_set.
    destruct (py_pos slices ax) as [k' |]; [| discriminate].
    intros H. apply IH in H. now rewrite length_insert in H.
Qed.

(** After a round the list of slices holds a slice. *)
Lemma flip_loop_nonempty ax rest slices self slices' self' :
  flip_loop (ax :: rest) slices self = (inr slices', self') ->
  slices' <> [].
Proof.
  rewrite flip_loop_step.
  destruct (py_pos (axes self) ax) as [k |]; [| discriminate].
  destruct (axes self !! k) as [a |]; [| discriminate].
  cbv zeta. unfold py_set.
  destruct (py_pos slices ax) as [k' |] eqn:Hk'; [| discriminate].
  intros H. apply flip_loop_length in H. rewrite length_insert in H.
  apply py_pos_lt in Hk'. intros ->. simpl in H. lia.
Qed.

(** A call of [flip] with axes: when the loop is through, the data is
    indexed by a list that holds slices, which raises; the data is
    never reversed. *)
Lemma flip_run ax rest self :
  flip (ax :: rest) self =
  match flip_loop (ax :: rest) (map (fun _ => SliceAll) (axes self)) self with
  | (inl e, self1) => (inl e, self1)
  | (inr _, self1) => (inl (IndexError msg_valid_indices), self1)
  end.
Proof.
  unfold flip, as_list. cbn [length Nat.eqb]. rewrite bind_get.
  destruct (flip_loop (ax :: rest) (map (fun _ => SliceAll) (axes self)) self)
    as [[e | slices] self1] eqn:Hloop.
  - now apply bind_raise.
  - rewrite (bind_ok _ _ _ _ _ Hloop). step.
    apply flip_loop_nonempty in Hloop.
    destruct slices as [| s slices]; [congruence | reflexivity].
Qed.

(** One call of [flip] with one axis, step by step. *)
Lemma flip_one_run self j :
  flip [j] self =
  match py_pos (axes self) j with
  | None => (inl (IndexError msg_list_index), self)
  | Some k =>
      match axes self !! k with
      | None => (inl (IndexError msg_list_index), self)
      | Some a =>
          (inl (IndexError msg_valid_indices),
           set_axes (<[k:=rev a]> (axes self)) self)
      end
  end.
Proof.
  rewrite flip_run, flip_loop_step.
  destruct (py_pos (axes self) j) as [k |] eqn:Hk; [| reflexivity].
  destruct (axes self !! k) as [a |] eqn:Ha; [| reflexivity].
  cbv zeta. unfold py_set.
  rewrite <- (py_pos_length (axes self)) by now rewrite length_map.
  rewrite Hk. reflexivity.
Qed.

(** Two calls of [flip] with the same axis leave the container as it
    was: each reverses the axis and raises. *)
Lemma flip_twice_restores self j :
  snd (flip [j] (snd (flip [j] self))) = self.
Proof.
  rewrite (flip_one_run self j).
  destruct (py_pos (axes self) j) as [k |] eqn:Hk.
  2:{ simpl. rewrite flip_one_run, Hk. reflexivity. }
  destruct (axes self !! k) as [a |] eqn:Ha.
  2:{ simpl. rewrite flip_one_run, Hk, Ha. reflexivity. }
  assert (Hlt : k < length (axes self)) by (eapply lookup_lt_Some; eassumption).
  cbn [snd]. rewrite flip_one_run. cbn [axes set_axes].
  rewrite <- (py_pos_length (axes self)) by now rewrite length_insert.
  rewrite Hk, list_lookup_insert_eq by assumption. cbn [snd].
  rewrite list_insert_insert_eq, rev_involutive.
  rewrite list_insert_id by assumption. now destruct self.
Qed.

(** C5. [flip(-1)] on the 3x3 example reverses the second axis, then
    raises [IndexError] where it indexes the data by its list of
    slices: the call does not return and the data is not reversed, so
    that the axis no longer runs along the data. A second [flip(-1)]
    raises in the same way and reverses the axis back. [flip()] with
    no axes returns without any change. *)
Theorem flip_raises_3x3 :
  exists self1,
    flip [(-1)%Z] mesh_3x3 = (inl (IndexError msg_valid_indices), self1) /\
    axes self1 = [Qs [0; 1; 2]%Z; Qs [2; 1; 0]%Z] /\
    data self1 = data mesh_3x3 /\
    flip [(-1)%Z] self1 = (inl (IndexError msg_valid_indices), mesh_3x3) /\
    flip [] mesh_3x3 = (inr tt, mesh_3x3).
Proof.
  eexists. split; [vm_compute; reflexivity |]. repeat split.
Qed.

Lemma same_or_reversed_trans {A} (a b c : list A) :
  same_or_reversed a b -> same_or_reversed b c -> same_or_reversed a c.
Proof.
  unfold same_or_reversed. intros [-> | ->] [-> | ->]; auto.
  left. apply rev_involutive.
Qed.

Lemma same_or_reversed_lengths (l' l : list axis) :
  Forall2 same_or_reversed l' l -> map length l' = map length l.
Proof.
  induction 1 as [| a' a l' l Ha _ IH]; [reflexivity |].
  simpl. f_equal; [| exact IH].
  destruct Ha as [-> | ->]; [reflexivity | apply length_rev].
Qed.

Lemma flip_loop_frame axes_arg : forall slices self r self',
  flip_loop axes_arg slices self = (r, self') ->
  data self' = data self /\ labels self' = labels self /\
  units self' = units self /\
  Forall2 same_or_reversed (axes self') (axes self).
Proof.
  assert (Hrefl : forall l : list axis, Forall2 same_or_reversed l l).
  { intros l. apply Forall2_same_length_lookup_2; [reflexivity |].
    intros i x y Hx Hy. left. congruence. }
  induction axes_arg as [| ax rest IH]; intros slices self r self'.
  - intros [= _ <-]. auto.
  - rewrite flip_loop_step.
    destruct (py_pos (axes self) ax) as [k |]; [| intros [= _ <-]; auto].
    destruct (axes self !! k) as [a |] eqn:Ha; [| intros [= _ <-]; auto].
    cbv zeta.
    assert (Hstep : Forall2 same_or_reversed (<[k:=rev a]> (axes self))
                            (axes self)).
    { rewrite <- (list_insert_id (axes self) k a) at 2 by assumption.
      apply Forall2_insert; [apply Hrefl | now right]. }
    destruct (py_set slices ax SliceRev) as [e | slices'].
    + intros [= _ <-]. simpl. auto.
    + intros H. apply IH in H as (Hd & Hl & Hu & Hax). simpl in *.
      repeat split; try assumption.
      eapply Forall2_trans; [| exact Hax | exact Hstep].
      intros x y z. apply same_or_reversed_trans.
Qed.

(** What a call of [flip] leaves alone, whatever its outcome. *)
Lemma flip_state axes_arg self :
  data (flip axes_arg self).2 = data self /\
  labels (flip axes_arg self).2 = labels self /\
  units (flip axes_arg self).2 = units self /\
  Forall2 same_or_reversed (axes (flip axes_arg self).2) (axes self).
Proof.
  destruct axes_arg as [| ax rest].
  - cbn. repeat split.
    apply Forall2_same_length_lookup_2; [reflexivity |].
    intros i x y Hx Hy. left. congruence.
  - rewrite flip_run.
    destruct (flip_loop (ax :: rest) (map (fun _ => SliceAll) (axes self)) self)
      as [[e | slices] self1] eqn:Hloop;
      apply flip_loop_frame in Hloop; exact Hloop.
Qed.

(** ** [limit] *)

Lemma nearest_empty {arith : Arith} x : nearest [] x = inl (ValueError msg_argmin_empty).
Proof. reflexivity. Qed.

Lemma nearest_nonempty {arith : Arith} ax x :
  ax <> [] -> exists k, nearest ax x = inr k.
Proof. destruct ax; [congruence |]. intros _. simpl. eauto. Qed.

Lemma nearest_raise {arith : Arith} ax x e :
  nearest ax x = inl e -> ax = [] /\ e = ValueError msg_argmin_empty.
Proof. destruct ax; simpl; [intros [= <-]; auto | discriminate]. Qed.

(** The slice does not depend on the order of the two bounds. *)
Lemma limit_slice_swap {arith : Arith} ax x1 x2 i :
  limit_slice ax (x2, x1) i = limit_slice ax (x1, x2) i.
Proof.
  unfold limit_slice.
  destruct (nearest ax x1) as [e1 | idx1] eqn:E1,
           (nearest ax x2) as [e2 | idx2] eqn:E2; try reflexivity.
  - apply nearest_raise in E1 as [_ ->], E2 as [_ ->]. reflexivity.
  - destruct (Nat.lt_trichotomy idx1 idx2) as [H | [H | H]].
    + replace (idx1 <? idx2) with true by (symmetry; apply Nat.ltb_lt; lia).
      replace (idx2 <? idx1) with false by (symmetry; apply Nat.ltb_ge; lia).
      replace (idx1 =? idx2) with false by (symmetry; apply Nat.eqb_neq; lia).
      reflexivity.
    + subst. rewrite Nat.ltb_irrefl, Nat.eqb_refl. reflexivity.
    + replace (idx1 <? idx2) with false by (symmetry; apply Nat.ltb_ge; lia).
      replace (idx2 <? idx1) with true by (symmetry; apply Nat.ltb_lt; lia).
      replace (idx2 =? idx1) with false by (symmetry; apply Nat.eqb_neq; lia).
      reflexivity.
Qed.

(** One round of the loop of [limit]. *)
Lemma limit_loop_step {arith : Arith} limits axes_arg j js slices self :
  limit_loop limits axes_arg (j :: js) slices self =
  match slice_at limits axes_arg (axes self) j with
  | inl e => (inl e, self)
  | inr s =>
      match axes self !! j with
      | None => (inl (IndexError msg_list_index), self)
      | Some ax =>
          limit_loop limits axes_arg js (slices ++ [s])
            (set_axes (<[j:=apply_slice s ax]> (axes self)) self)
      end
  end.
Proof.
  cbn [limit_loop]. unfold slice_at.
  destruct (py_in (Z.of_nat j) axes_arg).
  - destruct (py_index (Z.of_nat j) axes_arg) as [i |]; [| reflexivity].
    step. rewrite py_get_nat.
    destruct (axes self !! j) as [ax |] eqn:Hax; [| reflexivity].
    step. destruct (py_get limits (Z.of_nat i)) as [e | lim]; [reflexivity |].
    step. destruct (limit_slice ax lim i) as [e | s]; [reflexivity |].
    step. rewrite py_get_nat, Hax. step.
    rewrite py_set_nat by (eapply lookup_lt_Some; eassumption).
    reflexivity.
  - step. rewrite py_get_nat.
    destruct (axes self !! j) as [ax |] eqn:Hax; [| reflexivity].
    step.
    rewrite py_set_nat by (eapply lookup_lt_Some; eassumption).
    reflexivity.
Qed.

Lemma slice_at_swap {arith : Arith} limits limits' axes_arg axs j :
  Forall2 same_or_swapped limits limits' ->
  slice_at limits' axes_arg axs j = slice_at limits axes_arg axs j.
Proof.
  intros HF. unfold slice_at.
  destruct (py_in (Z.of_nat j) axes_arg); [| reflexivity].
  destruct (py_index (Z.of_nat j) axes_arg) as [i |]; [| reflexivity].
  destruct (py_get axs (Z.of_nat j)) as [e | ax]; [reflexivity |].
  rewrite !py_get_nat.
  destruct (limits !! i) as [[x1 x2] |] eqn:Hl.
  - destruct (Forall2_lookup_l _ _ _ _ _ HF Hl) as [q [-> [-> | ->]]];
      [reflexivity | apply limit_slice_swap].
  - apply lookup_ge_None in Hl.
    rewrite (Forall2_length _ _ _ HF) in Hl.
    apply lookup_ge_None in Hl. now rewrite Hl.
Qed.

Lemma limit_loop_swap {arith : Arith} limits limits' axes_arg js : forall slices self,
  Forall2 same_or_swapped limits limits' ->
  limit_loop limits' axes_arg js slices self
  = limit_loop limits axes_arg js slices self.
Proof.
  induction js as [| j js IH]; intros slices self HF; [reflexivity |].
  rewrite !limit_loop_step, (slice_at_swap limits limits') by assumption.
  destruct (slice_at limits axes_arg (axes self) j); [reflexivity |].
  destruct (axes self !! j); [| reflexivity].
  now apply IH.
Qed.

Lemma limit_swap {arith : Arith} limits limits' axes_arg self :
  Forall2 same_or_swapped limits limits' ->
  limit limits' axes_arg self = limit limits axes_arg self.
Proof.
  intros HF. unfold limit. rewrite !bind_get.
  rewrite <- (Forall2_length _ _ _ HF).
  destruct (negb _); [reflexivity |].
  unfold bind at 1 3. now rewrite (limit_loop_swap limits limits').
Qed.

(** C3. In a call of [limit], exchanging the two bounds of the pair of
    any one axis changes nothing: the same result or the same exception,
    and the same data and axes afterwards. *)
Theorem limit_bounds_order {arith : Arith} self limits1 x1 x2 limits2 axes_arg :
  limit (limits1 ++ (x2, x1) :: limits2) axes_arg self
  = limit (limits1 ++ (x1, x2) :: limits2) axes_arg self.
Proof.
  apply limit_swap. apply Forall2_app.
  - apply Forall2_same_length_lookup_2; [reflexivity |].
    intros i p q Hp Hq. left. congruence.
  - constructor; [now right |].
    apply Forall2_same_length_lookup_2; [reflexivity |].
    intros i p q Hp Hq. left. congruence.
Qed.

(** *** The loop and the slices it plans *)

Lemma slice_at_insert {arith : Arith} limits axes_arg axs k a j :
  j <> k ->
  slice_at limits axes_arg (<[k:=a]> axs) j = slice_at limits axes_arg axs j.
Proof.
  intros Hne. unfold slice_at.
  now rewrite !py_get_nat, list_lookup_insert_ne by congruence.
Qed.

Lemma plan_insert {arith : Arith} limits axes_arg axs k a js :
  ~ In k js ->
  plan limits axes_arg (<[k:=a]> axs) js = plan limits axes_arg axs js.
Proof.
  induction js as [| j js IH]; intros Hk; [reflexivity |].
  simpl. rewrite slice_at_insert by (intros ->; apply Hk; now left).
  rewrite IH by (intros H; apply Hk; now right). reflexivity.
Qed.

Lemma slice_at_axis {arith : Arith} limits axes_arg axs j s :
  slice_at limits axes_arg axs j = inr s -> exists ax, axs !! j = Some ax.
Proof.
  unfold slice_at. rewrite py_get_nat.
  destruct (axs !! j) as [ax |]; [eauto |].
  destruct (py_in _ _); [| discriminate].
  destruct (py_index _ _); discriminate.
Qed.

(** The loop over the dimensions [k, k+1, ..., k+l-1] raises what the
    plan raises, and otherwise appends the planned slices and applies
    each to its axis. *)
Lemma limit_loop_plan {arith : Arith} limits axes_arg l : forall k slices self,
  match plan limits axes_arg (axes self) (seq k l) with
  | inl e =>
      exists self',
        limit_loop limits axes_arg (seq k l) slices self = (inl e, self') /\
        data self' = data self
  | inr new =>
      exists self',
        limit_loop limits axes_arg (seq k l) slices self
        = (inr (slices ++ new), self') /\
        length new = l /\
        data self' = data self /\ labels self' = labels self /\
        units self' = units self /\
        length (axes self') = length (axes self) /\
        forall j,
          axes self' !! j =
          if decide (k <= j < k + l)
          then match new !! (j - k) with
               | Some s => apply_slice s <$> (axes self !! j)
               | None => None
               end
          else axes self !! j
  end.
Proof.
  induction l as [| l IH]; intros k slices self.
  - simpl. exists self. rewrite app_nil_r.
    do 6 (split; [reflexivity |]).
    intros j. destruct (decide _); [lia | reflexivity].
  - cbn [seq plan]. rewrite limit_loop_step.
    destruct (slice_at limits axes_arg (axes self) k) as [e | s] eqn:Hs.
    { exists self. auto. }
    destruct (slice_at_axis _ _ _ _ _ Hs) as [ax Hax]. rewrite Hax.
    assert (Hk : k < length (axes self)) by (eapply lookup_lt_Some; eassumption).
    set (self1 := set_axes (<[k:=apply_slice s ax]> (axes self)) self).
    specialize (IH (S k) (slices ++ [s]) self1).
    assert (Hplan : plan limits axes_arg (axes self1) (seq (S k) l)
                    = plan limits axes_arg (axes self) (seq (S k) l)).
    { apply plan_insert. rewrite in_seq. lia. }
    rewrite Hplan in IH.
    destruct (plan limits axes_arg (axes self) (seq (S k) l)) as [e | new].
    { destruct IH as [self' [Hrun Hd]]. exists self'. split; assumption. }
    destruct IH as [self' (Hrun & Hlen & Hd & Hl & Hu & Hla & Hax')].
    exists self'. rewrite <- app_assoc in Hrun.
    simpl in Hla. rewrite length_insert in Hla.
    do 6 (split; [first [assumption | simpl; lia] |]).
    intros j. rewrite Hax'. subst self1. cbn [axes set_axes].
    destruct (decide (k = j)) as [<- | Hne].
    + rewrite list_lookup_insert_eq by assumption.
      rewrite Nat.sub_diag. repeat case_decide; try lia.
      simpl. now rewrite Hax.
    + rewrite list_lookup_insert_ne by assumption.
      repeat case_decide; try lia; try reflexivity.
      replace (j - k) with (S (j - S k)) by lia. reflexivity.
Qed.

Lemma length_apply_slice {A} s (l : list A) :
  length (apply_slice s l) = slice_len s (length l).
Proof.
  destruct s; simpl; [reflexivity | | apply length_rev].
  now rewrite length_take, length_drop.
Qed.

Lemma lengths_zip_apply_slice {A} ss : forall (ls : list (list A)),
  length ss = length ls ->
  map length (zip_with apply_slice ss ls) = slice_shape ss (map length ls).
Proof.
  induction ss as [| s ss IH]; intros [| l ls] H; try discriminate;
    [reflexivity |].
  simpl. rewrite length_apply_slice, IH; [reflexivity |].
  now injection H.
Qed.

(** The whole loop, on a container with as many axes as dimensions. *)
Lemma limit_loop_all {arith : Arith} limits axes_arg self :
  match plan limits axes_arg (axes self) (seq 0 (length (axes self))) with
  | inl e =>
      exists self',
        limit_loop limits axes_arg (seq 0 (length (axes self))) [] self
        = (inl e, self') /\
        data self' = data self
  | inr new =>
      length new = length (axes self) /\
      limit_loop limits axes_arg (seq 0 (length (axes self))) [] self
      = (inr new, set_axes (zip_with apply_slice new (axes self)) self)
  end.
Proof.
  assert (H := limit_loop_plan limits axes_arg (length (axes self)) 0 [] self).
  destruct (plan limits axes_arg (axes self) (seq 0 (length (axes self))))
    as [e | new]; [exact H |].
  destruct H as [self' (Hrun & Hlen & Hd & Hl & Hu & Hla & Hax)].
  split; [assumption |]. rewrite Hrun. simpl. f_equal.
  destruct self' as [d' axs' ls' us'], self as [d axs ls us]. simpl in *.
  subst. unfold set_axes. simpl. f_equal.
  apply list_eq. intros j. rewrite Hax, lookup_zip_with, Nat.sub_0_r.
  case_decide as Hj.
  - destruct (new !! j) as [s |] eqn:Hs; simpl; [| reflexivity].
    now destruct (axs !! j).
  - rewrite (lookup_ge_None_2 new j), (lookup_ge_None_2 axs j) by lia.
    reflexivity.
Qed.

(** A call of [limit] on a container with as many axes as dimensions. *)
Lemma limit_run {arith : Arith} limits axes_arg self :
  length (axes self) = ndim (data self) ->
  let axes_arg' := limit_axes self axes_arg in
  if negb (length axes_arg' =? length limits)
  then limit limits axes_arg self = (inl (ValueError msg_num_limits), self)
  else
    match plan limits axes_arg' (axes self) (seq 0 (ndim (data self))) with
    | inl e =>
        exists self', limit limits axes_arg self = (inl e, self') /\
                      data self' = data self
    | inr new =>
        length new = ndim (data self) /\
        limit limits axes_arg self =
        (inr tt,
         set_data (mk_ndarray (dtype (data self))
                              (slice_shape new (shape (data self)))
                              (slice_nd new (items (data self))))
                  (set_axes (zip_with apply_slice new (axes self)) self))
    end.
Proof.
  intros Hn. cbv zeta. unfold limit, as_list. rewrite bind_get.
  replace (match axes_arg with
           | Some a => a
           | None => map Z.of_nat (seq 0 (ndim (data self)))
           end)
    with (limit_axes self axes_arg)
    by now destruct axes_arg.
  set (axes_arg' := limit_axes self axes_arg).
  destruct (negb (length axes_arg' =? length limits)); [reflexivity |].
  assert (H := limit_loop_all limits axes_arg' self). rewrite Hn in H.
  destruct (plan limits axes_arg' (axes self) (seq 0 (ndim (data self))))
    as [e | new].
  - destruct H as [self' [Hrun Hd]]. exists self'.
    split; [| assumption]. now apply bind_raise.
  - destruct H as [Hlen Hrun]. split; [assumption |].
    rewrite (bind_ok _ _ _ _ _ Hrun). step. simpl.
    unfold getitem. rewrite Hlen, Nat.leb_refl. reflexivity.
Qed.

(** *** Empty slices *)

Lemma py_in_index j l :
  py_in j l = true <-> exists i, py_index j l = Some i.
Proof.
  induction l as [| a l IH]; simpl.
  - split; [discriminate | intros [? [=]]].
  - destruct (a =? j)%Z; simpl; [split; eauto |].
    rewrite IH. split; intros [i Hi].
    + rewrite Hi. simpl. eauto.
    + destruct (py_index j l); [eauto | discriminate].
Qed.

Lemma py_index_lt j l i : py_index j l = Some i -> i < length l.
Proof.
  revert i. induction l as [| a l IH]; intros i; simpl; [discriminate |].
  destruct (a =? j)%Z.
  - intros [= <-]. lia.
  - destruct (py_index j l) as [i' |]; [| discriminate].
    intros [= <-]. specialize (IH i' eq_refl). lia.
Qed.

Lemma plan_raise {arith : Arith} limits axes_arg axs js e :
  plan limits axes_arg axs js = inl e ->
  exists j, In j js /\ slice_at limits axes_arg axs j = inl e.
Proof.
  induction js as [| j js IH]; simpl; [discriminate |].
  destruct (slice_at limits axes_arg axs j) as [e' | s] eqn:Hs.
  - intros [= <-]. eauto.
  - destruct (plan limits axes_arg axs js) as [e' | ss]; [| discriminate].
    intros [= <-]. destruct (IH eq_refl) as [j' [Hin Hj']]. eauto.
Qed.

Lemma plan_ok {arith : Arith} limits axes_arg axs js new j :
  plan limits axes_arg axs js = inr new ->
  In j js -> exists s, slice_at limits axes_arg axs j = inr s.
Proof.
  revert new. induction js as [| j' js IH]; intros new; simpl; [tauto |].
  destruct (slice_at limits axes_arg axs j') as [e' | s] eqn:Hs;
    [discriminate |].
  destruct (plan limits axes_arg axs js) as [e' | ss]; [discriminate |].
  intros _ [<- | Hin]; eauto.
Qed.

Section EmptySlice.

Context {arith : Arith}.
Context (self : MeshData) (limits : list (Q * Q)) (axes_arg : list Z).
Hypothesis Hdims : length (axes self) = ndim (data self).
Hypothesis Hsamples : Forall (fun ax : axis => ax <> []) (axes self).
Hypothesis Harity : length axes_arg = length limits.

(** Along a dimension of such a container the loop finds a slice, or
    the two bounds fall on one sample. *)
Lemma slice_at_outcome j :
  j < ndim (data self) ->
  (exists s, slice_at limits axes_arg (axes self) j = inr s) \/
  (exists i, slice_at limits axes_arg (axes self) j
             = inl (ValueError (msg_empty_slice i))).
Proof.
  intros Hj. rewrite <- Hdims in Hj.
  destruct (lookup_lt_is_Some_2 _ _ Hj) as [ax Hax].
  unfold slice_at. rewrite py_get_nat, Hax.
  destruct (py_in (Z.of_nat j) axes_arg) eqn:Hin; [| eauto].
  apply py_in_index in Hin as [i Hi]. rewrite Hi.
  assert (Hil : i < length limits)
    by (rewrite <- Harity; eapply py_index_lt; eassumption).
  destruct (lookup_lt_is_Some_2 _ _ Hil) as [[x1 x2] Hlim].
  rewrite py_get_nat, Hlim.
  assert (Hne : ax <> []).
  { rewrite Forall_forall in Hsamples. apply Hsamples.
    eapply list_elem_of_lookup_2; eassumption. }
  destruct (nearest_nonempty ax x1 Hne) as [k1 H1],
           (nearest_nonempty ax x2 Hne) as [k2 H2].
  unfold limit_slice. rewrite H1, H2.
  destruct (k2 <? k1); [eauto |].
  destruct (k1 =? k2); eauto.
Qed.

Lemma slice_at_collapses j :
  collapses self limits axes_arg j <->
  exists i, slice_at limits axes_arg (axes self) j
            = inl (ValueError (msg_empty_slice i)).
Proof.
  split.
  - intros [Hj (i & ax & x1 & x2 & k & Hi & Hax & Hlim & H1 & H2)].
    exists i. unfold slice_at.
    assert (Hin : py_in (Z.of_nat j) axes_arg = true)
      by (apply py_in_index; eauto).
    rewrite Hin, Hi, !py_get_nat, Hax, Hlim.
    unfold limit_slice. rewrite H1, H2, Nat.ltb_irrefl, Nat.eqb_refl.
    reflexivity.
  - intros [i0 Hs]. unfold slice_at in Hs. rewrite py_get_nat in Hs.
    destruct (axes self !! j) as [ax |] eqn:Hax.
    2:{ destruct (py_in _ _); [| discriminate].
        destruct (py_index _ _); discriminate. }
    assert (Hj : j < ndim (data self))
      by (rewrite <- Hdims; eapply lookup_lt_Some; eassumption).
    destruct (py_in (Z.of_nat j) axes_arg); [| discriminate].
    destruct (py_index (Z.of_nat j) axes_arg) as [i |] eqn:Hi;
      [| discriminate].
    rewrite py_get_nat in Hs.
    destruct (limits !! i) as [[x1 x2] |] eqn:Hlim; [| discriminate].
    unfold limit_slice in Hs.
    destruct (nearest ax x1) as [e1 | k1] eqn:H1.
    { apply nearest_raise in H1 as [_ ->]. discriminate. }
    destruct (nearest ax x2) as [e2 | k2] eqn:H2.
    { apply nearest_raise in H2 as [_ ->]. discriminate. }
    destruct (k2 <? k1); [discriminate |].
    destruct (k1 =? k2) eqn:Hk; [| discriminate].
    apply Nat.eqb_eq in Hk. subst k2.
    split; [assumption |]. exists i, ax, x1, x2, k1. auto.
Qed.

Lemma limit_raises_empty_slice :
  raises_empty_slice (fst (limit limits (Some axes_arg) self)) <->
  exists j, collapses self limits axes_arg j.
Proof.
  assert (Hrun := limit_run limits (Some axes_arg) self Hdims).
  cbv zeta in Hrun. unfold limit_axes in Hrun. simpl default in Hrun.
  rewrite Harity, Nat.eqb_refl in Hrun. simpl negb in Hrun. cbv iota in Hrun.
  destruct (plan limits axes_arg (axes self) (seq 0 (ndim (data self))))
    as [e | new] eqn:Hplan.
  - destruct Hrun as [self' [Hrun _]]. rewrite Hrun. simpl.
    destruct (plan_raise _ _ _ _ _ Hplan) as [j [Hin Hs]].
    apply in_seq in Hin.
    destruct (slice_at_outcome j) as [[s Hs'] | [i Hs']]; [lia | congruence |].
    assert (e = ValueError (msg_empty_slice i)) as -> by congruence.
    split.
    + intros _. exists j. apply slice_at_collapses. eauto.
    + intros _. exists i. reflexivity.
  - destruct Hrun as [_ Hrun]. rewrite Hrun. simpl. split.
    + intros [i Hi]. discriminate.
    + intros [j Hj]. assert (Hlt := proj1 Hj).
      apply slice_at_collapses in Hj as [i Hs].
      destruct (plan_ok _ _ _ _ _ j Hplan) as [s Hs'];
        [apply in_seq; lia | congruence].
Qed.

End EmptySlice.

(** C4. On a container with as many axes as dimensions and no empty
    axis, a call of [limit] with one pair per listed axis raises the
    empty-slice error exactly when, along some requested dimension, the
    nearest samples of both bounds are the same sample. *)
Theorem limit_empty_slice_iff {arith : Arith} self limits axes_arg :
  length (axes self) = ndim (data self) ->
  Forall (fun ax : axis => ax <> []) (axes self) ->
  length axes_arg = length limits ->
  raises_empty_slice (fst (limit limits (Some axes_arg) self)) <->
  exists j, collapses self limits axes_arg j.
Proof. apply limit_raises_empty_slice. Qed.

(** [limit((1,1), axes=[1])] on the 3x3 example: both bounds are nearest
    to the sample 1 of the second axis. *)
Lemma limit_empty_slice_iff_witness :
  raises_empty_slice (fst (limit [(1, 1)%Q] (Some [1%Z]) mesh_3x3)) <->
  exists j, collapses mesh_3x3 [(1, 1)%Q] [1%Z] j.
Proof.
  apply (limit_empty_slice_iff mesh_3x3 [(1, 1)%Q] [1%Z]).
  - reflexivity.
  - repeat constructor; discriminate.
  - reflexivity.
Defined.

Example limit_empty_slice_3x3 :
  limit [(1, 1)%Q] (Some [1%Z]) mesh_3x3
  = (inl (ValueError "Selected empty slice along axis 0!"), mesh_3x3).
Proof. reflexivity. Qed.

(** [limit((x,x), axes=[j])]: the pair with equal bounds. *)
Lemma limit_degenerate_pair {arith : Arith} self (j : nat) (x : Q) :
  length (axes self) = ndim (data self) ->
  Forall (fun ax : axis => ax <> []) (axes self) ->
  j < ndim (data self) ->
  raises_empty_slice (fst (limit [(x, x)] (Some [Z.of_nat j]) self)).
Proof.
  intros Hdims Hsamples Hj.
  apply limit_raises_empty_slice; try assumption; [reflexivity |].
  assert (Hlt : j < length (axes self)) by lia.
  destruct (lookup_lt_is_Some_2 _ _ Hlt) as [ax Hax].
  assert (Hne : ax <> []).
  { rewrite Forall_forall in Hsamples. apply Hsamples.
    eapply list_elem_of_lookup_2; eassumption. }
  destruct (nearest_nonempty ax x Hne) as [k Hk].
  exists j. split; [assumption |].
  exists 0, ax, x, x, k. simpl. rewrite Z.eqb_refl. auto.
Qed.

(** The plan raises what the first dimension without a slice raises. *)
Lemma plan_first_raise {arith : Arith} limits axes_arg axs e l : forall k,
  plan limits axes_arg axs (seq k l) = inl e <->
  exists j,
    k <= j < k + l /\
    slice_at limits axes_arg axs j = inl e /\
    forall j', k <= j' < j -> exists s, slice_at limits axes_arg axs j' = inr s.
Proof.
  induction l as [| l IH]; intros k.
  - simpl. split; [discriminate | intros (j & Hj & _); lia].
  - cbn [seq plan].
    destruct (slice_at limits axes_arg axs k) as [e' | s] eqn:Hs.
    + split.
      * intros [= <-]. exists k. split; [lia |]. split; [assumption |].
        intros j' Hj'. lia.
      * intros (j & Hj & Hraise & Hbefore).
        destruct (decide (j = k)) as [-> | Hne]; [congruence |].
        destruct (Hbefore k) as [s Hs']; [lia | congruence].
    + specialize (IH (S k)).
      destruct (plan limits axes_arg axs (seq (S k) l)) as [e' | ss].
      * split.
        -- intros [= <-]. destruct (proj1 IH eq_refl) as (j & Hj & Hr & Hb).
           exists j. split; [lia |]. split; [assumption |].
           intros j' Hj'. destruct (decide (j' = k)) as [-> | Hne]; [eauto |].
           apply Hb. lia.
        -- intros (j & Hj & Hraise & Hbefore).
           destruct (decide (j = k)) as [-> | Hne]; [congruence |].
           f_equal. enough (inl e' = (inl e : result (list slice))) by congruence.
           apply IH. exists j. split; [lia |]. split; [assumption |].
           intros j' Hj'. apply Hbefore. lia.
      * split; [discriminate |].
        intros (j & Hj & Hraise & Hbefore).
        destruct (decide (j = k)) as [-> | Hne]; [congruence |].
        exfalso. enough (@inr exn _ ss = inl e) by discriminate.
        apply IH. exists j. split; [lia |]. split; [assumption |].
        intros j' Hj'. apply Hbefore. lia.
Qed.

Lemma msg_num_limits_not_empty_slice i :
  ValueError msg_num_limits <> ValueError (msg_empty_slice i).
Proof. unfold msg_num_limits, msg_empty_slice. simpl. discriminate. Qed.

(** Without the conditions on the pairs and on the axes: the
    empty-slice error is raised exactly when the call has one pair per
    listed axis and, along the first dimension for which the loop finds
    no slice, both bounds are nearest to the same sample. *)
Lemma limit_raises_empty_slice_first {arith : Arith} self limits axes_arg :
  length (axes self) = ndim (data self) ->
  raises_empty_slice (fst (limit limits (Some axes_arg) self)) <->
  length axes_arg = length limits /\
  exists j,
    collapses self limits axes_arg j /\
    forall j', j' < j ->
      exists s, slice_at limits axes_arg (axes self) j' = inr s.
Proof.
  intros Hdims.
  assert (Hrun := limit_run limits (Some axes_arg) self Hdims).
  cbv zeta in Hrun. unfold limit_axes in Hrun. simpl default in Hrun.
  destruct (length axes_arg =? length limits) eqn:Harity.
  2:{ simpl in Hrun. rewrite Hrun. simpl. apply Nat.eqb_neq in Harity. split.
      - intros [i Hi]. exfalso.
        apply (msg_num_limits_not_empty_slice i). congruence.
      - intros [H _]. contradiction. }
  apply Nat.eqb_eq in Harity. simpl negb in Hrun. cbv iota in Hrun.
  destruct (plan limits axes_arg (axes self) (seq 0 (ndim (data self))))
    as [e | new] eqn:Hplan.
  - destruct Hrun as [self' [Hrun _]]. rewrite Hrun. simpl.
    apply plan_first_raise in Hplan as (j & Hj & Hraise & Hbefore).
    split.
    + intros [i Hi]. injection Hi as ->.
      split; [assumption |]. exists j. split.
      * apply slice_at_collapses; eauto.
      * intros j' Hj'. apply Hbefore. lia.
    + intros [_ (j0 & Hc & Hb)].
      apply slice_at_collapses in Hc as [i Hi]; [| assumption].
      destruct (Nat.lt_trichotomy j j0) as [Hlt | [-> | Hgt]].
      * destruct (Hb j Hlt) as [s Hs]. congruence.
      * exists i. congruence.
      * destruct (Hbefore j0) as [s Hs]; [lia | congruence].
  - destruct Hrun as [_ Hrun]. rewrite Hrun. simpl. split.
    + intros [i Hi]. discriminate.
    + intros [_ (j & Hc & _)]. assert (Hlt := proj1 Hc).
      apply slice_at_collapses in Hc as [i Hs]; [| assumption].
      destruct (plan_ok _ _ _ _ _ j Hplan) as [s Hs'];
        [apply in_seq; lia | congruence].
Qed.

(** ** The shape invariant *)

Lemma shape_invariant_consistent self :
  shape_invariant self <-> consistent self.
Proof.
  unfold shape_invariant, consistent, ndim. split.
  - intros [Hlen Hj]. apply list_eq. intros j.
    rewrite list_lookup_fmap.
    destruct (le_lt_dec (length (shape (data self))) j) as [Hge | Hlt].
    + rewrite (lookup_ge_None_2 (shape (data self)) j) by lia.
      rewrite (lookup_ge_None_2 (axes self) j) by lia. reflexivity.
    + now apply Hj.
  - intros H. split.
    + rewrite <- H. now rewrite length_map.
    + intros j _. rewrite <- H. now rewrite list_lookup_fmap.
Qed.

Lemma init_consistent data0 axes0 labels0 units0 self :
  MeshData_init data0 axes0 labels0 units0 = inr self -> consistent self.
Proof.
  intros H. apply init_inv in H as (Hd & Ha & _ & Hs & _).
  unfold consistent. now rewrite Hd, Ha.
Qed.

(** As values, the copy of a container is the container. *)
Lemma copy_identical self :
  shape_invariant self -> copy self = inr self.
Proof.
  intros H. apply shape_invariant_consistent in H. unfold consistent in H.
  unfold copy, MeshData_init, np_copy. rewrite map_id.
  unfold ndim. rewrite <- H, length_map, Nat.eqb_refl. simpl.
  rewrite bool_decide_eq_true_2 by reflexivity. simpl. now destruct self.
Qed.

Lemma limit_consistent {arith : Arith} limits axes_arg self self' :
  consistent self ->
  limit limits axes_arg self = (inr tt, self') ->
  consistent self'.
Proof.
  unfold consistent. intros Hc Hrun.
  assert (Hdims : length (axes self) = ndim (data self))
    by (unfold ndim; rewrite <- Hc; now rewrite length_map).
  assert (H := limit_run limits axes_arg self Hdims). cbv zeta in H.
  destruct (negb _); [congruence |].
  destruct (plan _ _ _ _) as [e | new].
  - destruct H as [s [H _]]. congruence.
  - destruct H as [Hlen H]. rewrite H in Hrun. injection Hrun as <-.
    simpl. rewrite lengths_zip_apply_slice by lia. now rewrite Hc.
Qed.

(** A call of [normalize] raises and changes nothing, or returns with
    the quotients as the data. *)
Lemma normalize_cases self :
  (exists e, normalize self = (inl e, self)) \/
  (exists m,
     normalize self =
     (inr tt,
      set_data (mk_ndarray float64 (shape (data self))
                  (map_nd (fun x => x / m)%Q (items (data self)))) self)).
Proof.
  destruct (np_max (data self)) as [e | m] eqn:Hmax.
  - left. exists e. unfold normalize. now rewrite bind_get, bind_lift, Hmax.
  - destruct (dtype (data self)) eqn:Hdt.
    + right. exists m. now apply normalize_run.
    + left. eexists. eapply normalize_integers; eassumption.
Qed.

Lemma normalize_consistent self :
  consistent self -> consistent (normalize self).2.
Proof.
  intros Hc. destruct (normalize_cases self) as [[e ->] | [m ->]]; exact Hc.
Qed.

Lemma flip_consistent axes_arg self :
  consistent self -> consistent (flip axes_arg self).2.
Proof.
  unfold consistent. intros Hc.
  destruct (flip_state axes_arg self) as (Hd & _ & _ & Ha).
  rewrite Hd, <- Hc. now apply same_or_reversed_lengths.
Qed.

(** The loop of [autolimit] only reads the container. *)
Lemma autolimit_loop_state
    (lib_limit : axis -> list Q -> Q -> Q -> result (Q * Q))
    marginals threshold padding ijs :
  forall limits self r self',
    autolimit_loop lib_limit marginals threshold padding ijs limits self
    = (r, self') ->
    self' = self.
Proof.
  induction ijs as [| [i j] rest IH]; intros limits self r self'.
  - now intros [= _ <-].
  - cbn [autolimit_loop]. step.
    destruct (py_get (axes self) j); [now intros [= _ <-] |].
    step. destruct (py_get marginals (Z.of_nat i)); [now intros [= _ <-] |].
    step. destruct (lib_limit _ _ _ _); [now intros [= _ <-] |].
    apply IH.
Qed.

(** ** Arrays stay rectangular *)

Lemma Forall_apply_slice {A} (P : A -> Prop) s l :
  Forall P l -> Forall P (apply_slice s l).
Proof.
  intros H. destruct s; simpl; [assumption | |].
  - now apply Forall_take, Forall_drop.
  - apply Forall_forall. intros x Hx.
    apply list_elem_of_In, in_rev, list_elem_of_In in Hx.
    rewrite Forall_forall in H. now apply H.
Qed.

Lemma has_shape_rows n sh rows :
  has_shape (n :: sh) (Arr rows) = true <->
  length rows = n /\ Forall (fun r => has_shape sh r = true) rows.
Proof.
  simpl. rewrite andb_true_iff, Nat.eqb_eq, forallb_forall, Forall_forall.
  split; intros [H1 H2]; (split; [assumption |]); intros r Hr; apply H2.
  - now apply list_elem_of_In.
  - now apply list_elem_of_In.
Qed.

Lemma has_shape_slice ss : forall sh d,
  has_shape sh d = true ->
  has_shape (slice_shape ss sh) (slice_nd ss d) = true.
Proof.
  induction ss as [| s ss IH]; intros sh d Hd.
  - now destruct sh.
  - destruct sh as [| n sh]; [now destruct d |].
    destruct d as [x | rows]; [discriminate |].
    apply has_shape_rows in Hd as [Hlen Hrows].
    cbn [slice_shape slice_nd]. apply has_shape_rows. split.
    + now rewrite length_map, length_apply_slice, Hlen.
    + apply Forall_fmap. apply Forall_apply_slice.
      eapply Forall_impl; [exact Hrows |]. intros r Hr. now apply IH.
Qed.

Lemma has_shape_map_nd f sh : forall d,
  has_shape sh (map_nd f d) = has_shape sh d.
Proof.
  induction sh as [| n sh IH]; intros [x | rows]; try reflexivity.
  simpl. rewrite length_map. f_equal.
  induction rows as [| r rows IHrows]; [reflexivity |].
  simpl. now rewrite IH, IHrows.
Qed.

Lemma getitem_rect a ss b :
  rect a = true -> getitem a ss = inr b -> rect b = true.
Proof.
  unfold getitem, rect. intros Ha.
  destruct (length ss <=? ndim a); [| discriminate].
  intros [= <-]. simpl. now apply has_shape_slice.
Qed.

Lemma limit_loop_data {arith : Arith} limits axes_arg js : forall slices self r self',
  limit_loop limits axes_arg js slices self = (r, self') ->
  data self' = data self.
Proof.
  induction js as [| j js IH]; intros slices self r self'.
  - now intros [= _ <-].
  - rewrite limit_loop_step.
    destruct (slice_at _ _ _ _); [now intros [= _ <-] |].
    destruct (axes self !! j); [| now intros [= _ <-]].
    intros H. now apply IH in H.
Qed.

Lemma limit_rect {arith : Arith} limits axes_arg self self' :
  rect (data self) = true ->
  limit limits axes_arg self = (inr tt, self') ->
  rect (data self') = true.
Proof.
  intros Hr. unfold limit. rewrite bind_get.
  destruct (negb _); [discriminate |].
  intros Hrun. apply bind_inr_inv in Hrun as (slices & self1 & Hloop & Hrun).
  apply limit_loop_data in Hloop. revert Hrun. step.
  destruct (getitem (data self1) slices) as [e | d] eqn:Hd; [discriminate |].
  intros [= <-]. simpl. eapply getitem_rect; [| exact Hd]. congruence.
Qed.

(** ** The scenario of [limit] *)

Lemma nd_get_slice_all r k :
  nd_get (slice_nd [SliceAll] r) [k] = nd_get r [k].
Proof.
  destruct r as [x | cols]; [reflexivity |].
  simpl. rewrite map_id. reflexivity.
Qed.

(** Behind [a[lo:hi, :]] the element at [(i, k)] is the element of [a]
    at [(lo + i, k)]. *)
Lemma nd_get_slice_range lo hi rows i k :
  i < hi - lo ->
  nd_get (slice_nd [SliceRange lo hi; SliceAll] (Arr rows)) [i; k]
  = nd_get (Arr rows) [lo + i; k].
Proof.
  intros Hi. cbn [slice_nd apply_slice nd_get].
  rewrite list_lookup_fmap, lookup_take_lt, lookup_drop by assumption.
  destruct (rows !! (lo + i)) as [r |]; [| reflexivity].
  simpl. apply nd_get_slice_all.
Qed.

Lemma has_shape_get2 n m it i k :
  has_shape [n; m] it = true -> i < n -> k < m ->
  exists x, nd_get it [i; k] = Some x.
Proof.
  intros H Hi Hk. destruct it as [x | rows]; [discriminate |].
  apply has_shape_rows in H as [Hlen Hrows].
  destruct (lookup_lt_is_Some_2 rows i) as [r Hr]; [lia |].
  rewrite Forall_forall in Hrows.
  assert (Hs : has_shape [m] r = true)
    by (apply Hrows; eapply list_elem_of_lookup_2; eassumption).
  destruct r as [x | cols]; [discriminate |].
  apply has_shape_rows in Hs as [Hlen' Hcols].
  destruct (lookup_lt_is_Some_2 cols k) as [c Hc]; [lia |].
  rewrite Forall_forall in Hcols.
  assert (Hs : has_shape [] c = true)
    by (apply Hcols; eapply list_elem_of_lookup_2; eassumption).
  destruct c as [x | ?]; [| discriminate].
  exists x. cbn [nd_get]. rewrite Hr. cbn [nd_get]. now rewrite Hc.
Qed.

(** C2. On a container with data of shape (5,5) and the axes
    [0,1,2,3,4] and [4,3,2,1,0], where the differences of the samples
    of the first axis and the bounds are computed exactly,
    [limit((1,3), axes=[0])] returns and leaves data of shape (3,5),
    whose element at [(i, k)] is the element the data had at
    [(i+1, k)], the first axis [1,2,3] and the second axis
    [4,3,2,1,0]. *)
Theorem limit_scenario_5x5 {arith : Arith} (d : ndarray) :
  (forall a x : Z, (0 <= a <= 4)%Z -> (1 <= x <= 3)%Z ->
     abs_sub (inject_Z a) (inject_Z x) = Qabs (inject_Z a - inject_Z x)) ->
  shape d = [5; 5] ->
  rect d = true ->
  exists self self',
    MeshData_init d [Qs [0; 1; 2; 3; 4]%Z; Qs [4; 3; 2; 1; 0]%Z] None None
    = inr self /\
    limit [(1, 3)%Q] (Some [0%Z]) self = (inr tt, self') /\
    shape (data self') = [3; 5] /\
    rect (data self') = true /\
    axes self' = [Qs [1; 2; 3]%Z; Qs [4; 3; 2; 1; 0]%Z] /\
    forall i k, i < 3 -> k < 5 ->
      exists x, nd_get (items (data self')) [i; k] = Some x /\
                nd_get (items d) [i + 1; k] = Some x.
Proof.
  intros Hex Hsh Hrect.
  assert (H1 : nearest (Qs [0; 1; 2; 3; 4]%Z) 1 = inr 1).
  { unfold nearest. change 1%Q with (inject_Z 1). cbn [Qs map].
    rewrite !Hex by lia. reflexivity. }
  assert (H3 : nearest (Qs [0; 1; 2; 3; 4]%Z) 3 = inr 3).
  { unfold nearest. change 3%Q with (inject_Z 3). cbn [Qs map].
    rewrite !Hex by lia. reflexivity. }
  destruct d as [dt sh it]. cbn [shape] in Hsh. subst sh.
  unfold rect in Hrect. cbn [shape items] in Hrect.
  set (self := mk_MeshData (mk_ndarray dt [5; 5] it)
                 [Qs [0; 1; 2; 3; 4]%Z; Qs [4; 3; 2; 1; 0]%Z]
                 [EmptyString; EmptyString] [EmptyString; EmptyString]).
  assert (Hrun := limit_run [(1, 3)%Q] (Some [0%Z]) self eq_refl).
  cbv zeta in Hrun. change (limit_axes self (Some [0%Z])) with [0%Z] in Hrun.
  change (negb (length [0%Z] =? length [(1, 3)%Q])) with false in Hrun.
  cbv iota in Hrun.
  assert (Hplan : plan [(1, 3)%Q] [0%Z] (axes self) (seq 0 (ndim (data self)))
                  = inr [SliceRange 1 4; SliceAll]).
  { assert (Hs0 : limit_slice (Qs [0; 1; 2; 3; 4]%Z) (1, 3)%Q 0
                   = inr (SliceRange 1 4))
      by (unfold limit_slice; rewrite H1, H3; reflexivity).
    unfold self. cbv -[limit_slice Qs]. rewrite Hs0. reflexivity. }
  rewrite Hplan in Hrun. destruct Hrun as [_ Hrun].
  exists self. eexists. split; [reflexivity |].
  split; [exact Hrun |].
  split; [reflexivity |].
  split; [exact (has_shape_slice [SliceRange 1 4; SliceAll] [5; 5] it Hrect) |].
  split; [reflexivity |].
  intros i k Hi Hk. subst self. cbn [data set_data set_axes items].
  destruct (has_shape_get2 5 5 it (i + 1) k Hrect) as [x Hx]; [lia | lia |].
  exists x. split; [| exact Hx].
  destruct it as [? | rows]; [discriminate |].
  rewrite nd_get_slice_range by lia. rewrite <- Hx. f_equal. f_equal. lia.
Qed.

Lemma limit_scenario_5x5_witness :
  exists self self',
    MeshData_init data_5x5 [Qs [0; 1; 2; 3; 4]%Z; Qs [4; 3; 2; 1; 0]%Z]
                  None None = inr self /\
    limit [(1, 3)%Q] (Some [0%Z]) self = (inr tt, self') /\
    shape (data self') = [3; 5] /\
    rect (data self') = true /\
    axes self' = [Qs [1; 2; 3]%Z; Qs [4; 3; 2; 1; 0]%Z] /\
    forall i k, i < 3 -> k < 5 ->
      exists x, nd_get (items (data self')) [i; k] = Some x /\
                nd_get (items data_5x5) [i + 1; k] = Some x.
Proof.
  apply (limit_scenario_5x5 data_5x5); reflexivity.
Defined.

(** ** [interpolate] onto the container's own axes *)

Lemma strictly_increasing_tail x a :
  strictly_increasing (x :: a) = true -> strictly_increasing a = true.
Proof.
  destruct a as [| y a]; [reflexivity |].
  cbn [strictly_increasing]. intros H. now apply andb_prop in H.
Qed.

(** Sorting a strictly increasing axis moves nothing. *)
Lemma sort_increasing v : forall k,
  strictly_increasing v = true ->
  foldr insert_sorted [] (zip v (seq k (length v))) = zip v (seq k (length v)).
Proof.
  induction v as [| x v IH]; intros k Hv; [reflexivity |].
  simpl zip. cbn [foldr].
  rewrite IH by (eapply strictly_increasing_tail; eassumption).
  destruct v as [| y v]; [reflexivity |].
  cbn [strictly_increasing] in Hv. apply andb_prop in Hv as [Hxy _].
  simpl. apply negb_true_iff in Hxy.
  destruct (Qle_bool x y) eqn:E; [reflexivity |].
  exfalso. destruct (Qlt_le_dec y x) as [Hlt | Hle].
  - apply Qlt_le_weak in Hlt. apply Qle_bool_iff in Hlt. congruence.
  - apply Qle_bool_iff in Hle. congruence.
Qed.

Lemma np_argsort_increasing v :
  strictly_increasing v = true -> np_argsort v = seq 0 (length v).
Proof.
  intros Hv. unfold np_argsort. rewrite sort_increasing by assumption.
  apply snd_zip. now rewrite length_seq.
Qed.

Lemma lookup_all_from {A} (l : list A) : forall pre,
  omap (fun i => (pre ++ l) !! i) (seq (length pre) (length l)) = l.
Proof.
  induction l as [| x l IH]; intros pre; [reflexivity |].
  simpl. rewrite list_lookup_middle by reflexivity.
  f_equal. specialize (IH (pre ++ [x])).
  rewrite <- app_assoc, length_app in IH. simpl in IH.
  now rewrite Nat.add_1_r in IH.
Qed.

Lemma fancy_all {A} (l : list A) : fancy l (seq 0 (length l)) = l.
Proof. exact (lookup_all_from l []). Qed.

Lemma take_nd_all k : forall sh d n,
  has_shape sh d = true ->
  sh !! k = Some n ->
  take_nd k (seq 0 n) d = d.
Proof.
  induction k as [| k IH]; intros [| m sh] d n Hd Hk; try discriminate.
  - injection Hk as ->. destruct d as [x | rows]; [discriminate |].
    simpl in Hd. apply andb_prop in Hd as [Hlen _].
    apply Nat.eqb_eq in Hlen. subst n. simpl. f_equal. apply fancy_all.
  - destruct d as [x | rows]; [discriminate |].
    simpl in Hd, Hk. apply andb_prop in Hd as [_ Hrows].
    simpl. f_equal. rewrite <- (map_id rows) at 2.
    apply map_ext_in. intros r Hr.
    rewrite forallb_forall in Hrows. eapply IH; eauto.
Qed.

Lemma take_shape_same k : forall sh n,
  sh !! k = Some n -> take_shape k n sh = sh.
Proof.
  induction k as [| k IH]; intros [| m sh] n H; try discriminate.
  - now injection H as ->.
  - simpl. f_equal. now apply IH.
Qed.

Lemma np_take_all a k n :
  rect a = true -> shape a !! k = Some n ->
  np_take a (seq 0 n) k = inr a.
Proof.
  intros Hr Hk. unfold np_take.
  assert (Hlt : k < ndim a) by (eapply lookup_lt_Some; eassumption).
  apply Nat.ltb_lt in Hlt. rewrite Hlt, length_seq.
  rewrite take_shape_same, (take_nd_all k (shape a)) by assumption.
  now destruct a.
Qed.

Section Identity.

Context (Grid Interp : Type).
Context (build_coords : list axis -> result Grid).
Context (RegularGridInterpolator : list axis -> ndarray -> result Interp).
Context (interp_call : Interp -> Grid -> result ndarray).

(** What interpolation means for the collaborator: on a strictly
    increasing grid that fits the values, the interpolant exists and,
    evaluated on its own grid, gives the values back, as floating
    numbers. *)
Hypothesis interp_nodes : forall src d,
  forallb strictly_increasing src = true ->
  shape d = map length src ->
  exists f grid,
    RegularGridInterpolator src d = inr f /\
    build_coords src = inr grid /\
    interp_call f grid = inr (astype_float d).

(** The sorting loop on strictly increasing axes changes neither the
    container nor the data. *)
Lemma sort_loop_increasing l : forall k d self,
  rect d = true ->
  shape d = map length (axes self) ->
  forallb strictly_increasing (axes self) = true ->
  k + l <= length (axes self) ->
  sort_loop (seq k l) d self = (inr d, self).
Proof.
  induction l as [| l IH]; intros k d self Hr Hs Hinc Hkl; [reflexivity |].
  cbn [seq sort_loop]. step. rewrite py_get_nat.
  assert (Hk : k < length (axes self)) by lia.
  destruct (lookup_lt_is_Some_2 _ _ Hk) as [a Ha]. rewrite Ha.
  assert (Ha_inc : strictly_increasing a = true).
  { rewrite forallb_forall in Hinc. apply Hinc.
    apply list_elem_of_In. eapply list_elem_of_lookup_2; eassumption. }
  rewrite np_argsort_increasing, fancy_all by assumption.
  step. rewrite py_set_nat, list_insert_id by assumption.
  replace (set_axes (axes self) self) with self by now destruct self.
  step. rewrite np_take_all.
  - apply IH; try assumption. lia.
  - assumption.
  - now rewrite Hs, list_lookup_fmap, Ha.
Qed.

(** C6 (amended). On a two-dimensional container that fulfils the shape
    invariant and whose axes are strictly increasing, [interpolate]
    with [sorted=False] and with the container's own axes as targets,
    given as they are or left out, returns and leaves the axes, the
    labels, the units and the shape and the elements of the data as
    they were (the data is then of floating type), for a collaborator
    that gives on its own grid the values it was built from. *)
Theorem interpolate_identity self axis1 axis2 degree :
  rect (data self) = true ->
  shape_invariant self ->
  ndim (data self) = 2 ->
  forallb strictly_increasing (axes self) = true ->
  axis1 = None \/ axis1 = axes self !! 0 ->
  axis2 = None \/ axis2 = axes self !! 1 ->
  interpolate Grid Interp build_coords RegularGridInterpolator interp_call
    axis1 axis2 degree false self
  = (inr tt, set_data (astype_float (data self)) self).
Proof.
  intros Hr Hinv Hn Hinc H1 H2.
  apply shape_invariant_consistent in Hinv. unfold consistent in Hinv.
  assert (Hlen : length (axes self) = 2)
    by (rewrite <- Hn; unfold ndim; rewrite <- Hinv; now rewrite length_map).
  destruct self as [d axs ls us]. simpl in *.
  destruct axs as [| a0 [| a1 [| ? ?]]]; try discriminate.
  set (self := mk_MeshData d [a0; a1] ls us).
  assert (Hfill : fill_targets (seq 0 2) [axis1; axis2] self
                  = (inr [Some a0; Some a1], self))
    by (destruct H1 as [-> | ->], H2 as [-> | ->]; reflexivity).
  unfold interpolate. rewrite bind_get.
  change (ndim (data self)) with (ndim d). rewrite Hn.
  rewrite (bind_ok _ _ _ _ _ Hfill).
  change (negb false) with true. cbv iota.
  change (length (axes self)) with 2. unfold np_copy.
  rewrite (bind_ok _ _ _ _ _
             (sort_loop_increasing 2 0 d self Hr (eq_sym Hinv) Hinc
                (Nat.le_refl 2))).
  step. change (axes self) with [a0; a1].
  destruct (interp_nodes [a0; a1] d Hinc (eq_sym Hinv))
    as (f & grid & Hf & Hg & Hcall).
  rewrite Hf. cbn [all_given fmap option_fmap option_map]. step.
  rewrite Hg. step. rewrite Hcall. step. reflexivity.
Qed.

End Identity.

Lemma example_interp_nodes src d :
  forallb strictly_increasing src = true ->
  shape d = map length src ->
  exists f grid,
    example_interpolator src d = inr f /\
    example_build_coords src = inr grid /\
    example_call f grid = inr (astype_float d).
Proof.
  intros Hinc Hs. exists (src, d), src.
  unfold example_interpolator, example_call.
  rewrite Hinc, !bool_decide_eq_true_2 by auto. auto.
Qed.

(** The 3x3 example, with its first axis given as the target and the
    second left out. *)
Lemma interpolate_identity_witness :
  interpolate (list axis) (list axis * ndarray) example_build_coords
    example_interpolator example_call (Some (Qs [0; 1; 2]%Z)) None 2 false
    mesh_3x3
  = (inr tt, set_data (astype_float (data mesh_3x3)) mesh_3x3).
Proof.
  apply (interpolate_identity (list axis) (list axis * ndarray)
           example_build_coords example_interpolator example_call
           example_interp_nodes mesh_3x3 (Some (Qs [0; 1; 2]%Z)) None 2).
  - reflexivity.
  - apply shape_invariant_consistent. reflexivity.
  - reflexivity.
  - reflexivity.
  - right. reflexivity.
  - left. reflexivity.
Defined.

(** C6, as stated for every container, fails beyond two dimensions: on
    the 2x2x2 example, whose axes are strictly increasing, the call
    raises and so reproduces nothing. *)
Lemma interpolate_identity_fails_in_3d :
  shape_invariant mesh_2x2x2 /\
  forallb strictly_increasing (axes mesh_2x2x2) = true /\
  interpolate (list axis) (list axis * ndarray) example_build_coords
    example_interpolator example_call None None 2 false mesh_2x2x2
  = (inl (IndexError msg_list_index), mesh_2x2x2) /\
  ~ exists self',
      interpolate (list axis) (list axis * ndarray) example_build_coords
        example_interpolator example_call None None 2 false mesh_2x2x2
      = (inr tt, self') /\
      data self' = data mesh_2x2x2.
Proof.
  split; [apply shape_invariant_consistent; reflexivity |].
  split; [reflexivity |].
  split; [reflexivity |].
  intros [self' [H _]]. discriminate.
Qed.

(** ** [copy] and the objects two containers share *)

Lemma read_axis_app h ext r a :
  Heap.read_axis h r = Some a -> Heap.read_axis (h ++ ext) r = Some a.
Proof.
  unfold Heap.read_axis. intros H.
  destruct (h !! r) as [o |] eqn:Ho; [| discriminate].
  now rewrite (lookup_app_l_Some _ _ _ _ Ho).
Qed.

Lemma read_axes_app h ext rs : forall axs,
  Heap.read_axes h rs = Some axs -> Heap.read_axes (h ++ ext) rs = Some axs.
Proof.
  induction rs as [| r rs IH]; intros axs; [trivial |].
  simpl. destruct (Heap.read_axis h r) as [a |] eqn:Ha; [| discriminate].
  destruct (Heap.read_axes h rs) as [axs0 |]; [| discriminate].
  intros [= <-]. now rewrite (read_axis_app _ _ _ _ Ha), (IH axs0).
Qed.

Lemma read_axes_length h rs axs :
  Heap.read_axes h rs = Some axs -> length axs = length rs.
Proof.
  revert axs. induction rs as [| r rs IH]; intros axs; simpl.
  - now intros [= <-].
  - destruct (Heap.read_axis h r); [| discriminate].
    destruct (Heap.read_axes h rs) as [axs0 |]; [| discriminate].
    intros [= <-]. simpl. f_equal. now apply IH.
Qed.

(** Copying the axes appends one new array per axis. *)
Lemma copy_axes_spec rs : forall h axs,
  Heap.read_axes h rs = Some axs ->
  Heap.copy_axes h rs
  = Some (seq (length h) (length rs), h ++ map Heap.Axis1 axs).
Proof.
  induction rs as [| r rs IH]; intros h axs.
  - intros [= <-]. simpl. now rewrite app_nil_r.
  - simpl. destruct (Heap.read_axis h r) as [a |] eqn:Ha; [| discriminate].
    destruct (Heap.read_axes h rs) as [axs0 |] eqn:Hl; [| discriminate].
    intros [= <-].
    rewrite (IH (h ++ [Heap.Axis1 (np_copy a)]) axs0)
      by now apply read_axes_app.
    rewrite length_app, <- app_assoc. simpl.
    now rewrite Nat.add_1_r.
Qed.

Lemma read_new_axes axs : forall h ext,
  Heap.read_axes (h ++ map Heap.Axis1 axs ++ ext)
                 (seq (length h) (length axs)) = Some axs.
Proof.
  induction axs as [| a axs IH]; intros h ext; [reflexivity |].
  simpl. unfold Heap.read_axis at 1.
  rewrite list_lookup_middle by reflexivity.
  specialize (IH (h ++ [Heap.Axis1 a]) ext).
  rewrite <- app_assoc, length_app in IH. simpl in IH.
  rewrite Nat.add_1_r in IH. now rewrite IH.
Qed.

(** Objects stay where they are: allocation appends, and a store to a
    place beyond a heap leaves the heap's own places alone. *)
Lemma lookup_old (h ext : Heap.heap) l o i x :
  h !! i = Some x -> length h <= l ->
  Heap.store l o (h ++ ext) !! i = Some x.
Proof.
  intros Hi Hl. unfold Heap.store.
  assert (i < length h) by (eapply lookup_lt_Some; eassumption).
  rewrite list_lookup_insert_ne by lia.
  now apply lookup_app_l_Some.
Qed.

Lemma lookup_new (h' : Heap.heap) n l o i :
  n <= i -> l < n -> Heap.store l o h' !! i = h' !! i.
Proof.
  intros Hi Hl. unfold Heap.store. apply list_lookup_insert_ne. lia.
Qed.

Lemma read_axes_old (h ext : Heap.heap) l o rs : forall axs,
  Heap.read_axes h rs = Some axs -> length h <= l ->
  Heap.read_axes (Heap.store l o (h ++ ext)) rs = Some axs.
Proof.
  induction rs as [| r rs IH]; intros axs; [trivial |].
  simpl. unfold Heap.read_axis.
  destruct (h !! r) as [[| a | |] |] eqn:Hr; try discriminate.
  destruct (Heap.read_axes h rs) as [axs0 |]; [| discriminate].
  intros [= <-] Hl.
  now rewrite (lookup_old _ _ _ _ _ _ Hr Hl), (IH axs0).
Qed.

Lemma read_axes_new (h' : Heap.heap) n l o rs :
  Forall (fun r => n <= r) rs -> l < n ->
  Heap.read_axes (Heap.store l o h') rs = Heap.read_axes h' rs.
Proof.
  intros Hrs Hl. induction Hrs as [| r rs Hr _ IH]; [reflexivity |].
  simpl. unfold Heap.read_axis.
  now rewrite (lookup_new h' n l o r), IH.
Qed.

Section Copy.

Context (h : Heap.heap) (o : Heap.instance) (v : MeshData).
Hypothesis Hview : Heap.view h o = Some v.
Hypothesis Hinv : shape_invariant v.

(** The heap after [copy] and the new instance. *)
Let copied_heap : Heap.heap :=
  h ++ Heap.Ndarray (data v) :: map Heap.Axis1 (axes v)
    ++ [Heap.RefList (seq (S (length h)) (length (axes v)))].

Let copied : Heap.instance :=
  Heap.mk_instance (length h) (S (length h) + length (axes v))
                   (Heap.labels_at o) (Heap.units_at o).

Lemma view_inv :
  exists rs,
    Heap.read_ndarray h (Heap.data_at o) = Some (data v) /\
    Heap.read_refs h (Heap.axes_at o) = Some rs /\
    Heap.read_axes h rs = Some (axes v) /\
    Heap.read_strs h (Heap.labels_at o) = Some (labels v) /\
    Heap.read_strs h (Heap.units_at o) = Some (units v).
Proof.
  unfold Heap.view in Hview.
  destruct (Heap.read_ndarray h (Heap.data_at o)) as [d |]; [| discriminate].
  destruct (Heap.read_refs h (Heap.axes_at o)) as [rs |]; [| discriminate].
  destruct (Heap.read_strs h (Heap.labels_at o)) as [ls |]; [| discriminate].
  destruct (Heap.read_strs h (Heap.units_at o)) as [us |]; [| discriminate].
  destruct (Heap.read_axes h rs) as [axs |] eqn:Haxs; [| discriminate].
  injection Hview as <-. exists rs. simpl. auto.
Qed.

Lemma copy_run : Heap.copy h o = Some (inr copied, copied_heap).
Proof.
  destruct view_inv as (rs & Hd & Hrs & Haxs & Hls & Hus).
  apply shape_invariant_consistent in Hinv. unfold consistent in Hinv.
  assert (Hlen : length (axes v) = length rs)
    by (eapply read_axes_length; eassumption).
  unfold Heap.copy, Heap.init. rewrite Hrs, Hd. cbn [Heap.alloc].
  set (h1 := h ++ [Heap.Ndarray (np_copy (data v))]).
  rewrite (copy_axes_spec rs h1 (axes v)) by now apply read_axes_app.
  rewrite <- Hlen, <- (app_assoc h1), read_new_axes.
  assert (Hnd : ndim (data v) = length (axes v))
    by (unfold ndim; rewrite <- Hinv; now rewrite length_map).
  rewrite Hnd, Nat.eqb_refl. simpl negb. cbv iota.
  rewrite bool_decide_eq_true_2 by auto. simpl negb. cbv iota.
  unfold copied, copied_heap, h1, np_copy.
  rewrite !length_app, length_map, <- !app_assoc. simpl.
  rewrite !Nat.add_1_r. reflexivity.
Qed.

Lemma copied_heap_reads :
  Heap.read_ndarray copied_heap (length h) = Some (data v) /\
  Heap.read_refs copied_heap (S (length h) + length (axes v))
  = Some (seq (S (length h)) (length (axes v))) /\
  Heap.read_axes copied_heap (seq (S (length h)) (length (axes v)))
  = Some (axes v).
Proof.
  unfold copied_heap. split; [| split].
  - unfold Heap.read_ndarray. now rewrite list_lookup_middle.
  - unfold Heap.read_refs.
    rewrite app_comm_cons, app_assoc.
    rewrite list_lookup_middle; [reflexivity |].
    rewrite length_app. simpl. rewrite length_map. lia.
  - rewrite cons_middle, app_assoc.
    replace (S (length h)) with (length (h ++ [Heap.Ndarray (data v)]))
      by (rewrite length_app; simpl; lia).
    apply read_new_axes.
Qed.

(** The copy has the same data, axes, labels and units, and the
    original has kept its own. *)
Lemma copy_views :
  Heap.view copied_heap copied = Some v /\
  Heap.view copied_heap o = Some v.
Proof.
  destruct view_inv as (rs & Hd & Hrs & Haxs & Hls & Hus).
  destruct copied_heap_reads as (Hd' & Hrs' & Haxs').
  assert (Hls' : Heap.read_strs copied_heap (Heap.labels_at o)
                 = Some (labels v)).
  { unfold Heap.read_strs in *.
    destruct (h !! Heap.labels_at o) as [x |] eqn:E; [| discriminate].
    unfold copied_heap. now rewrite (lookup_app_l_Some _ _ _ _ E). }
  assert (Hus' : Heap.read_strs copied_heap (Heap.units_at o)
                 = Some (units v)).
  { unfold Heap.read_strs in *.
    destruct (h !! Heap.units_at o) as [x |] eqn:E; [| discriminate].
    unfold copied_heap. now rewrite (lookup_app_l_Some _ _ _ _ E). }
  split.
  - unfold Heap.view. cbn [copied Heap.data_at Heap.axes_at Heap.labels_at
                             Heap.units_at].
    rewrite Hd', Hrs', Hls', Hus', Haxs'. now destruct v.
  - unfold Heap.view.
    replace (Heap.read_ndarray copied_heap (Heap.data_at o))
      with (Some (data v)).
    2:{ unfold Heap.read_ndarray in *.
        destruct (h !! Heap.data_at o) as [x |] eqn:E; [| discriminate].
        unfold copied_heap. now rewrite (lookup_app_l_Some _ _ _ _ E). }
    replace (Heap.read_refs copied_heap (Heap.axes_at o)) with (Some rs).
    2:{ unfold Heap.read_refs in *.
        destruct (h !! Heap.axes_at o) as [x |] eqn:E; [| discriminate].
        unfold copied_heap. now rewrite (lookup_app_l_Some _ _ _ _ E). }
    rewrite Hls', Hus'. unfold copied_heap.
    rewrite (read_axes_app h _ rs (axes v)) by assumption.
    now destruct v.
Qed.

(** Whatever is stored at a place made by [copy] (the copy's data, its
    list of axes or one of its axes), the original reads as before. *)
Lemma original_unchanged l x :
  length h <= l ->
  Heap.view (Heap.store l x copied_heap) o = Some v.
Proof.
  intros Hl. destruct view_inv as (rs & Hd & Hrs & Haxs & Hls & Hus).
  unfold Heap.view, copied_heap.
  unfold Heap.read_ndarray, Heap.read_refs, Heap.read_strs in *.
  destruct (h !! Heap.data_at o) as [xd |] eqn:Ed; [| discriminate].
  destruct (h !! Heap.axes_at o) as [xa |] eqn:Ea; [| discriminate].
  destruct (h !! Heap.labels_at o) as [xl |] eqn:El; [| discriminate].
  destruct (h !! Heap.units_at o) as [xu |] eqn:Eu; [| discriminate].
  rewrite (lookup_old _ _ _ _ _ _ Ed Hl), (lookup_old _ _ _ _ _ _ Ea Hl),
    (lookup_old _ _ _ _ _ _ El Hl), (lookup_old _ _ _ _ _ _ Eu Hl).
  rewrite Hd, Hrs, Hls, Hus.
  rewrite (read_axes_old h _ l x rs (axes v)) by assumption.
  now destruct v.
Qed.

(** Whatever is stored at a place of the heap before [copy] (the
    original's data, its list of axes, its axes), the copy reads its
    data and its axes as before. *)
Lemma copy_data_axes_unchanged l x :
  l < length h ->
  Heap.read_ndarray (Heap.store l x copied_heap) (Heap.data_at copied)
  = Some (data v) /\
  Heap.read_refs (Heap.store l x copied_heap) (Heap.axes_at copied)
  = Some (seq (S (length h)) (length (axes v))) /\
  Heap.read_axes (Heap.store l x copied_heap)
                 (seq (S (length h)) (length (axes v)))
  = Some (axes v).
Proof.
  intros Hl. destruct copied_heap_reads as (Hd' & Hrs' & Haxs').
  split; [| split].
  - unfold Heap.read_ndarray in *. cbn [copied Heap.data_at].
    now rewrite (lookup_new _ (length h)) by lia.
  - unfold Heap.read_refs in *. cbn [copied Heap.axes_at].
    now rewrite (lookup_new _ (length h)) by lia.
  - rewrite (read_axes_new _ (length h)); [assumption | | assumption].
    apply Forall_forall. intros r Hr.
    apply list_elem_of_In, in_seq in Hr. lia.
Qed.

(** [copy] in one statement: the new instance reads the same data,
    axes, labels and units; its data and axes live at new places, so a
    store through either instance to its data or axes is not seen by
    the other; its labels and units are the original's own lists. *)
Lemma copy_spec :
  exists c h',
    Heap.copy h o = Some (inr c, h') /\
    Heap.view h' c = Some v /\ Heap.view h' o = Some v /\
    (forall l x, length h <= l ->
       Heap.view (Heap.store l x h') o = Some v) /\
    (forall l x, l < length h ->
       Heap.read_ndarray (Heap.store l x h') (Heap.data_at c)
       = Some (data v) /\
       exists rs,
         Heap.read_refs (Heap.store l x h') (Heap.axes_at c) = Some rs /\
         Heap.read_axes (Heap.store l x h') rs = Some (axes v)) /\
    Heap.labels_at c = Heap.labels_at o /\
    Heap.units_at c = Heap.units_at o.
Proof.
  exists copied, copied_heap.
  split; [exact copy_run |].
  split; [exact (proj1 copy_views) |].
  split; [exact (proj2 copy_views) |].
  split; [exact original_unchanged |].
  split; [| split; reflexivity].
  intros l x Hl.
  destruct (copy_data_axes_unchanged l x Hl) as (H1 & H2 & H3). eauto.
Qed.

End Copy.

(** C7. The code at a failing input: after [c = m.copy()] and
    [c.labels[0] = "x"], [c.units[0] = "m"], the original [m] reads the
    new label and the new unit, while its data and axes are its own. *)
Theorem copy_shares_labels_example :
  exists c h1 h2 h3 m_before m_after,
    Heap.copy Heap.heap0 Heap.mesh0 = Some (inr c, h1) /\
    Heap.view h1 Heap.mesh0 = Some m_before /\
    Heap.set_label c 0 "x" h1 = Some (inr tt, h2) /\
    Heap.set_unit c 0 "m" h2 = Some (inr tt, h3) /\
    Heap.view h3 Heap.mesh0 = Some m_after /\
    labels m_before = ["t"; "w"; "I"]%string /\
    labels m_after = ["x"; "w"; "I"]%string /\
    units m_before = ["s"; "Hz"; "au"]%string /\
    units m_after = ["m"; "Hz"; "au"]%string /\
    data m_after = data m_before /\ axes m_after = axes m_before.
Proof.
  do 6 eexists.
  split; [reflexivity |]. split; [reflexivity |].
  split; [reflexivity |]. split; [reflexivity |].
  split; [reflexivity |]. repeat split.
Qed.

(** * Further properties *)

(** ** The nearest sample *)

(** The scan keeps the first minimum of what it has seen. *)
Lemma argmin_from_first_min l : forall pre best besti,
  pre !! besti = Some best ->
  first_min pre besti ->
  first_min (pre ++ l) (argmin_from best besti (length pre) l).
Proof.
  induction l as [| x l IH]; intros pre best besti Hbest Hmin.
  - simpl. now rewrite app_nil_r.
  - cbn [argmin_from].
    destruct Hmin as (m & Hm & Hle & Hlt).
    assert (m = best) as -> by congruence.
    replace (pre ++ x :: l) with ((pre ++ [x]) ++ l)
      by now rewrite <- app_assoc.
    replace (S (length pre)) with (length (pre ++ [x]))
      by (rewrite length_app; simpl; lia).
    destruct (Qle_bool best x) eqn:E.
    + apply Qle_bool_iff in E. apply IH.
      * now apply lookup_app_l_Some.
      * exists best. split; [now apply lookup_app_l_Some |]. split.
        -- intros i y Hi. apply lookup_app_Some in Hi as [Hi | [Hge Hi]].
           ++ eapply Hle; eassumption.
           ++ apply list_lookup_singleton_Some in Hi as [_ <-]. exact E.
        -- intros i y Hik Hi. apply lookup_app_Some in Hi as [Hi | [Hge Hi]].
           ++ eapply Hlt; eassumption.
           ++ apply lookup_lt_Some in Hbest. lia.
    + apply Qle_bool_false in E. apply IH.
      * now rewrite list_lookup_middle.
      * exists x. split; [now rewrite list_lookup_middle |]. split.
        -- intros i y Hi. apply lookup_app_Some in Hi as [Hi | [Hge Hi]].
           ++ apply Qlt_le_weak. eapply Qlt_le_trans; [exact E |].
              eapply Hle; eassumption.
           ++ apply list_lookup_singleton_Some in Hi as [_ <-]. apply Qle_refl.
        -- intros i y Hik Hi. apply lookup_app_Some in Hi as [Hi | [Hge Hi]].
           ++ eapply Qlt_le_trans; [exact E |]. eapply Hle; eassumption.
           ++ lia.
Qed.

Lemma np_argmin_first_min v k :
  np_argmin v = inr k -> first_min v k.
Proof.
  destruct v as [| x l]; [discriminate |]. intros [= <-].
  apply (argmin_from_first_min l [x] x 0); [reflexivity |].
  exists x. split; [reflexivity |]. split.
  - intros i y Hi. apply list_lookup_singleton_Some in Hi as [_ <-].
    apply Qle_refl.
  - intros i y Hi. lia.
Qed.

Lemma first_min_unique v k k' :
  first_min v k -> first_min v k' -> k = k'.
Proof.
  intros (m & Hm & Hle & Hlt) (m' & Hm' & Hle' & Hlt').
  destruct (Nat.lt_trichotomy k k') as [H | [H | H]]; [| assumption |].
  - exfalso. specialize (Hlt' k m H Hm). specialize (Hle k' m' Hm').
    apply (Qlt_irrefl m). eapply Qle_lt_trans; eassumption.
  - exfalso. specialize (Hlt k' m' H Hm'). specialize (Hle' k m Hm).
    apply (Qlt_irrefl m'). eapply Qle_lt_trans; eassumption.
Qed.

Lemma first_min_np_argmin v k :
  first_min v k -> np_argmin v = inr k.
Proof.
  intros H. destruct (np_argmin v) as [e | k'] eqn:E.
  - destruct v; [| discriminate].
    destruct H as (m & Hm & _). discriminate.
  - f_equal. eapply first_min_unique; [| eassumption].
    now apply np_argmin_first_min.
Qed.

(** X1. The index [np.argmin(np.abs(ax - x))] that [limit] computes is
    the first position at which the computed distance to [x] is least.
    Where the distances of the samples of [ax] to [x] are computed
    exactly, it is the position of a sample of [ax] nearest to [x], and
    the first of the nearest ones. *)
Theorem nearest_is_closest {arith : Arith} ax x k :
  nearest ax x = inr k ->
  exists a,
    ax !! k = Some a /\
    (forall i b, ax !! i = Some b -> (abs_sub a x <= abs_sub b x)%Q) /\
    (forall i b, i < k -> ax !! i = Some b ->
       (abs_sub a x < abs_sub b x)%Q) /\
    ((forall i b, ax !! i = Some b -> abs_sub b x = Qabs (b - x)) ->
     (forall i b, ax !! i = Some b -> (Qabs (a - x) <= Qabs (b - x))%Q) /\
     (forall i b, i < k -> ax !! i = Some b ->
        (Qabs (a - x) < Qabs (b - x))%Q)).
Proof.
  intros H. apply np_argmin_first_min in H as (m & Hm & Hle & Hlt).
  rewrite list_lookup_fmap in Hm.
  destruct (ax !! k) as [a |] eqn:Ha; [| discriminate].
  injection Hm as <-. exists a. split; [reflexivity |].
  assert (Hle' : forall i b, ax !! i = Some b ->
                   (abs_sub a x <= abs_sub b x)%Q).
  { intros i b Hb. apply (Hle i). now rewrite list_lookup_fmap, Hb. }
  assert (Hlt' : forall i b, i < k -> ax !! i = Some b ->
                   (abs_sub a x < abs_sub b x)%Q).
  { intros i b Hi Hb. apply (Hlt i); [assumption |].
    now rewrite list_lookup_fmap, Hb. }
  split; [exact Hle' |]. split; [exact Hlt' |].
  intros Hex. split.
  - intros i b Hb. rewrite <- (Hex k a Ha), <- (Hex i b Hb). eauto.
  - intros i b Hi Hb. rewrite <- (Hex k a Ha), <- (Hex i b Hb). eauto.
Qed.

Lemma nearest_is_closest_witness :
  exists a,
    Qs [4; 3; 2; 1; 0]%Z !! 1 = Some a /\
    (forall i b, Qs [4; 3; 2; 1; 0]%Z !! i = Some b ->
       (abs_sub a (5 # 2) <= abs_sub b (5 # 2))%Q) /\
    (forall i b, i < 1 -> Qs [4; 3; 2; 1; 0]%Z !! i = Some b ->
       (abs_sub a (5 # 2) < abs_sub b (5 # 2))%Q) /\
    ((forall i b, Qs [4; 3; 2; 1; 0]%Z !! i = Some b ->
        abs_sub b (5 # 2) = Qabs (b - (5 # 2))) ->
     (forall i b, Qs [4; 3; 2; 1; 0]%Z !! i = Some b ->
        (Qabs (a - (5 # 2)) <= Qabs (b - (5 # 2)))%Q) /\
     (forall i b, i < 1 -> Qs [4; 3; 2; 1; 0]%Z !! i = Some b ->
        (Qabs (a - (5 # 2)) < Qabs (b - (5 # 2)))%Q)).
Proof.
  apply (nearest_is_closest (Qs [4; 3; 2; 1; 0]%Z) (5 # 2)%Q 1).
  reflexivity.
Defined.

(** ** What [limit] keeps and what it leaves alone *)

Lemma plan_lookup {arith : Arith} limits axes_arg axs l : forall k new,
  plan limits axes_arg axs (seq k l) = inr new ->
  forall t, t < l ->
    exists s, new !! t = Some s /\
              slice_at limits axes_arg axs (k + t) = inr s.
Proof.
  induction l as [| l IH]; intros k new Hplan t Ht; [lia |].
  cbn [seq plan] in Hplan.
  destruct (slice_at limits axes_arg axs k) as [e | s] eqn:Hs;
    [discriminate |].
  destruct (plan limits axes_arg axs (seq (S k) l)) as [e | ss] eqn:Hss;
    [discriminate |].
  injection Hplan as <-. destruct t as [| t].
  - exists s. rewrite Nat.add_0_r. auto.
  - destruct (IH (S k) ss Hss t) as (s' & Hs' & Hat); [lia |].
    exists s'. split; [assumption |].
    now replace (k + S t) with (S k + t) by lia.
Qed.

(** The slice found for a dimension: everything, when the dimension is
    not requested; from the smaller to the larger of the two nearest
    indices, when it is. *)
Lemma slice_at_inv {arith : Arith} limits axes_arg axs j s ax :
  slice_at limits axes_arg axs j = inr s ->
  axs !! j = Some ax ->
  if py_in (Z.of_nat j) axes_arg then
    exists i x1 x2 k1 k2,
      py_index (Z.of_nat j) axes_arg = Some i /\
      limits !! i = Some (x1, x2) /\
      nearest ax x1 = inr k1 /\ nearest ax x2 = inr k2 /\
      k1 <> k2 /\
      s = SliceRange (Nat.min k1 k2) (S (Nat.max k1 k2))
  else s = SliceAll.
Proof.
  unfold slice_at. rewrite py_get_nat. intros Hs Hax. rewrite Hax in Hs.
  destruct (py_in (Z.of_nat j) axes_arg); [| congruence].
  destruct (py_index (Z.of_nat j) axes_arg) as [i |] eqn:Hi; [| discriminate].
  rewrite py_get_nat in Hs.
  destruct (limits !! i) as [[x1 x2] |] eqn:Hl; [| discriminate].
  unfold limit_slice in Hs.
  destruct (nearest ax x1) as [e | k1] eqn:H1; [discriminate |].
  destruct (nearest ax x2) as [e | k2] eqn:H2; [discriminate |].
  exists i, x1, x2, k1, k2.
  do 4 (split; [first [reflexivity | assumption] |]).
  destruct (k2 <? k1) eqn:E1.
  - apply Nat.ltb_lt in E1. injection Hs as <-. split; [lia |].
    f_equal; lia.
  - apply Nat.ltb_ge in E1. destruct (k1 =? k2) eqn:E2; [discriminate |].
    apply Nat.eqb_neq in E2. injection Hs as <-. split; [lia |].
    f_equal; lia.
Qed.

Lemma limit_keeps_range_aux {arith : Arith} self limits axes_arg self' :
  shape_invariant self ->
  limit limits axes_arg self = (inr tt, self') ->
  ndim (data self') = ndim (data self) /\
  length (limit_axes self axes_arg) = length limits /\
  forall j ax, axes self !! j = Some ax ->
    if py_in (Z.of_nat j) (limit_axes self axes_arg) then
      exists i x1 x2 k1 k2,
        py_index (Z.of_nat j) (limit_axes self axes_arg) = Some i /\
        limits !! i = Some (x1, x2) /\
        nearest ax x1 = inr k1 /\ nearest ax x2 = inr k2 /\
        k1 <> k2 /\
        axes self' !! j
        = Some (take (S (Nat.max k1 k2) - Nat.min k1 k2)
                     (drop (Nat.min k1 k2) ax))
    else axes self' !! j = Some ax.
Proof.
  intros Hinv Hrun.
  assert (Hdims : length (axes self) = ndim (data self)) by apply Hinv.
  assert (H := limit_run limits axes_arg self Hdims). cbv zeta in H.
  destruct (length (limit_axes self axes_arg) =? length limits) eqn:Harity;
    [| simpl in H; congruence].
  apply Nat.eqb_eq in Harity. simpl negb in H. cbv iota in H.
  destruct (plan limits (limit_axes self axes_arg) (axes self)
              (seq 0 (ndim (data self)))) as [e | new] eqn:Hplan.
  { destruct H as [s [H _]]. congruence. }
  destruct H as [Hlen H]. rewrite H in Hrun. injection Hrun as <-.
  simpl. split.
  { unfold ndim. simpl. clear. generalize (shape (data self)).
    induction new as [| s ss IH]; intros [| n sh]; simpl; auto. }
  split; [assumption |].
  intros j ax Hax.
  assert (Hj : j < ndim (data self))
    by (rewrite <- Hdims; eapply lookup_lt_Some; eassumption).
  destruct (plan_lookup _ _ _ _ _ _ Hplan j Hj) as (s & Hs & Hat).
  simpl in Hat.
  assert (Hnew : zip_with apply_slice new (axes self) !! j
                 = Some (apply_slice s ax)).
  { rewrite lookup_zip_with, Hs, Hax. reflexivity. }
  assert (Hinv' := slice_at_inv _ _ _ _ _ _ Hat Hax).
  destruct (py_in (Z.of_nat j) (limit_axes self axes_arg)).
  - destruct Hinv' as (i & x1 & x2 & k1 & k2 & Hi & Hl & H1 & H2 & Hne & ->).
    exists i, x1, x2, k1, k2. do 5 (split; [assumption |]). exact Hnew.
  - subst s. exact Hnew.
Qed.

(** X2. After a call of [limit] that returns, on a container with the
    shape invariant: an axis that was not requested is as before; a
    requested axis is cut to the samples from the position that
    [np.argmin] finds for one bound to the position it finds for the
    other bound, both included (whatever the arithmetic of the
    distances), so at least two samples stay; the number of dimensions
    is as before. *)
Theorem limit_keeps_range {arith : Arith} self limits axes_arg self' :
  shape_invariant self ->
  limit limits axes_arg self = (inr tt, self') ->
  ndim (data self') = ndim (data self) /\
  forall j ax, axes self !! j = Some ax ->
    if py_in (Z.of_nat j) (limit_axes self axes_arg) then
      exists i x1 x2 k1 k2 ax',
        py_index (Z.of_nat j) (limit_axes self axes_arg) = Some i /\
        limits !! i = Some (x1, x2) /\
        nearest ax x1 = inr k1 /\ nearest ax x2 = inr k2 /\
        axes self' !! j = Some ax' /\
        ax' = take (S (Nat.max k1 k2) - Nat.min k1 k2)
                   (drop (Nat.min k1 k2) ax) /\
        2 <= length ax' <= length ax
    else axes self' !! j = Some ax.
Proof.
  intros Hinv Hrun.
  destruct (limit_keeps_range_aux self limits axes_arg self' Hinv Hrun)
    as (Hnd & _ & Hax).
  split; [assumption |]. intros j ax Hj. specialize (Hax j ax Hj).
  destruct (py_in (Z.of_nat j) (limit_axes self axes_arg)); [| assumption].
  destruct Hax as (i & x1 & x2 & k1 & k2 & Hi & Hl & H1 & H2 & Hne & Hnew).
  exists i, x1, x2, k1, k2, (take (S (Nat.max k1 k2) - Nat.min k1 k2)
                               (drop (Nat.min k1 k2) ax)).
  do 5 (split; [assumption |]). split; [reflexivity |].
  apply np_argmin_first_min in H1 as (m1 & Hm1 & _).
  apply np_argmin_first_min in H2 as (m2 & Hm2 & _).
  apply lookup_lt_Some in Hm1, Hm2. rewrite length_map in Hm1, Hm2.
  rewrite length_take, length_drop. lia.
Qed.

Lemma limit_keeps_range_witness :
  exists self',
    limit [(0, 1)%Q] (Some [0%Z]) mesh_3x3 = (inr tt, self') /\
    ndim (data self') = ndim (data mesh_3x3) /\
    forall j ax, axes mesh_3x3 !! j = Some ax ->
      if py_in (Z.of_nat j) (limit_axes mesh_3x3 (Some [0%Z])) then
        exists i x1 x2 k1 k2 ax',
          py_index (Z.of_nat j) (limit_axes mesh_3x3 (Some [0%Z])) = Some i /\
          [(0, 1)%Q] !! i = Some (x1, x2) /\
          nearest ax x1 = inr k1 /\ nearest ax x2 = inr k2 /\
          axes self' !! j = Some ax' /\
          ax' = take (S (Nat.max k1 k2) - Nat.min k1 k2)
                     (drop (Nat.min k1 k2) ax) /\
          2 <= length ax' <= length ax
      else axes self' !! j = Some ax.
Proof.
  eexists. split; [vm_compute; reflexivity |].
  apply (limit_keeps_range mesh_3x3 [(0, 1)%Q] (Some [0%Z])).
  - apply shape_invariant_consistent. reflexivity.
  - vm_compute. reflexivity.
Defined.

Lemma slice_at_sublist {arith : Arith} limits axes_arg axs j s (ax : axis) :
  slice_at limits axes_arg axs j = inr s ->
  apply_slice s ax `sublist_of` ax.
Proof.
  intros Hs.
  assert (Hcases : s = SliceAll \/ exists lo hi, s = SliceRange lo hi).
  { unfold slice_at in Hs.
    destruct (py_in _ _).
    - destruct (py_index _ _) as [i |]; [| discriminate].
      destruct (py_get axs _); [discriminate |].
      destruct (py_get limits _) as [e | [x1 x2]]; [discriminate |].
      unfold limit_slice in Hs.
      destruct (nearest _ x1) as [e | k1]; [discriminate |].
      destruct (nearest _ x2) as [e | k2]; [discriminate |].
      destruct (k2 <? k1); [injection Hs as <-; eauto |].
      destruct (k1 =? k2); [discriminate | injection Hs as <-; eauto].
    - destruct (py_get axs _); [discriminate |]. injection Hs as <-. auto. }
  destruct Hcases as [-> | (lo & hi & ->)]; simpl; [reflexivity |].
  etransitivity; [apply sublist_take | apply sublist_drop].
Qed.

Lemma limit_loop_frame {arith : Arith} limits axes_arg js : forall slices self r self',
  limit_loop limits axes_arg js slices self = (r, self') ->
  data self' = data self /\ labels self' = labels self /\
  units self' = units self /\
  Forall2 sublist (axes self') (axes self).
Proof.
  induction js as [| j js IH]; intros slices self r self'.
  - intros [= _ <-]. repeat split. reflexivity.
  - rewrite limit_loop_step.
    assert (Hrefl : Forall2 sublist (axes self) (axes self)) by reflexivity.
    destruct (slice_at limits axes_arg (axes self) j) as [e | s] eqn:Hs;
      [now intros [= _ <-] |].
    destruct (axes self !! j) as [ax |] eqn:Hax; [| now intros [= _ <-]].
    intros H. apply IH in H as (Hd & Hl & Hu & Ha). simpl in *.
    repeat split; try assumption.
    etransitivity; [exact Ha |].
    rewrite <- (list_insert_id (axes self) j ax) at 2 by assumption.
    apply Forall2_insert; [assumption |].
    eapply slice_at_sublist; eassumption.
Qed.

(** X3. Whatever a call of [limit] does, return or raise, it leaves the
    labels, the units and the number of dimensions as they were, and
    every axis afterwards is a part of the axis before (samples are
    dropped, never added, changed or reordered); when it raises, the
    data is untouched. *)
Theorem limit_frame {arith : Arith} self limits axes_arg :
  labels (limit limits axes_arg self).2 = labels self /\
  units (limit limits axes_arg self).2 = units self /\
  Forall2 sublist (axes (limit limits axes_arg self).2) (axes self) /\
  ndim (data (limit limits axes_arg self).2) = ndim (data self) /\
  (forall e, (limit limits axes_arg self).1 = inl e ->
             data (limit limits axes_arg self).2 = data self).
Proof.
  assert (Hrefl : Forall2 sublist (axes self) (axes self)) by reflexivity.
  unfold limit. rewrite bind_get.
  destruct (negb _); [simpl; auto |].
  set (al := as_list _).
  destruct (limit_loop limits al (seq 0 (ndim (data self))) [] self)
    as [[e | slices] self1] eqn:Hloop.
  - rewrite (bind_raise _ _ _ _ _ Hloop). simpl.
    apply limit_loop_frame in Hloop as (Hd & Hl & Hu & Ha).
    rewrite Hd. auto.
  - rewrite (bind_ok _ _ _ _ _ Hloop). step.
    apply limit_loop_frame in Hloop as (Hd & Hl & Hu & Ha).
    unfold getitem.
    destruct (length slices <=? ndim (data self1)); simpl.
    + repeat split; try assumption; [| discriminate].
      unfold ndim. simpl. rewrite Hd. clear.
      generalize (shape (data self)). induction slices as [| s ss IH];
        intros [| n sh]; simpl; auto.
    + rewrite Hd. auto.
Qed.

(** ** Slices that take everything *)

Lemma apply_whole_slice {A} s (l : list A) :
  whole_slice s (length l) -> apply_slice s l = l.
Proof.
  intros [-> | ->]; simpl; [reflexivity |].
  rewrite Nat.sub_0_r. apply firstn_all.
Qed.

Lemma slice_len_whole s n : whole_slice s n -> slice_len s n = n.
Proof. intros [-> | ->]; simpl; lia. Qed.

Lemma slice_whole ss : forall sh d,
  has_shape sh d = true ->
  Forall2 whole_slice ss sh ->
  slice_shape ss sh = sh /\ slice_nd ss d = d.
Proof.
  induction ss as [| s ss IH]; intros sh d Hd Hall.
  - now destruct sh.
  - inversion Hall as [| ? n ? sh' Hs Hss]; subst.
    destruct d as [x | rows]; [discriminate |].
    apply has_shape_rows in Hd as [Hlen Hrows].
    cbn [slice_shape slice_nd]. rewrite slice_len_whole by assumption.
    rewrite apply_whole_slice by now rewrite Hlen.
    split.
    + f_equal. destruct sh' as [| m sh'].
      * inversion Hss; subst. reflexivity.
      * destruct rows as [| r rows].
        -- clear -Hss. revert Hss. generalize (m :: sh').
           induction ss as [| s' ss IHss]; intros sh Hss;
             inversion Hss; subst; simpl; [reflexivity |].
           now rewrite slice_len_whole, IHss.
        -- inversion Hrows; subst. now apply (IH _ r).
    + f_equal. rewrite <- (map_id rows) at 2. apply map_ext_in.
      intros r Hr. rewrite Forall_forall in Hrows.
      apply (IH sh' r); [| assumption].
      apply Hrows. now apply list_elem_of_In.
Qed.

Lemma zip_apply_whole {A} ss : forall (ls : list (list A)),
  Forall2 whole_slice ss (map length ls) ->
  zip_with apply_slice ss ls = ls.
Proof.
  induction ss as [| s ss IH]; intros [| l ls] H; inversion H; subst;
    [reflexivity |].
  simpl. now rewrite apply_whole_slice, IH.
Qed.

(** A plan is found when a slice is found for every dimension. *)
Lemma plan_intro {arith : Arith} limits axes_arg axs l : forall k ss,
  length ss = l ->
  (forall t s, ss !! t = Some s ->
     slice_at limits axes_arg axs (k + t) = inr s) ->
  plan limits axes_arg axs (seq k l) = inr ss.
Proof.
  induction l as [| l IH]; intros k [| s ss] Hlen Hat; try discriminate;
    [reflexivity |].
  cbn [seq plan]. rewrite <- (Nat.add_0_r k) at 1.
  rewrite (Hat 0 s eq_refl).
  rewrite (IH (S k) ss); [reflexivity | now injection Hlen |].
  intros t s' Ht. replace (S k + t) with (k + S t) by lia.
  now apply Hat.
Qed.

(** What a call does when every dimension gets a slice that takes the
    whole axis. *)
Lemma limit_whole {arith : Arith} self limits axes_arg ss :
  shape_invariant self ->
  rect (data self) = true ->
  length (limit_axes self axes_arg) = length limits ->
  length ss = ndim (data self) ->
  (forall j s, ss !! j = Some s ->
     slice_at limits (limit_axes self axes_arg) (axes self) j = inr s) ->
  Forall2 whole_slice ss (shape (data self)) ->
  limit limits axes_arg self = (inr tt, self).
Proof.
  intros Hinv Hrect Harity Hlen Hat Hwhole.
  assert (Hdims : length (axes self) = ndim (data self)) by apply Hinv.
  apply shape_invariant_consistent in Hinv. unfold consistent in Hinv.
  assert (H := limit_run limits axes_arg self Hdims). cbv zeta in H.
  rewrite Harity, Nat.eqb_refl in H. simpl negb in H. cbv iota in H.
  rewrite (plan_intro _ _ _ _ 0 ss Hlen Hat) in H.
  destruct H as [_ H]. rewrite H. f_equal.
  destruct (slice_whole ss _ _ Hrect Hwhole) as [-> ->].
  rewrite zip_apply_whole by now rewrite Hinv.
  now destruct self as [[sh it] axs ls us].
Qed.

Lemma limit_skips_foreign_axes {arith : Arith} self limits axes_arg :
  shape_invariant self ->
  rect (data self) = true ->
  length axes_arg = length limits ->
  (forall j, j < ndim (data self) -> py_in (Z.of_nat j) axes_arg = false) ->
  limit limits (Some axes_arg) self = (inr tt, self).
Proof.
  intros Hinv Hrect Harity Hnone.
  assert (Hdims : length (axes self) = ndim (data self)) by apply Hinv.
  apply (limit_whole self limits (Some axes_arg)
           (replicate (ndim (data self)) SliceAll));
    try assumption.
  - apply length_replicate.
  - intros j s Hs. apply lookup_replicate in Hs as [-> Hj].
    unfold slice_at, limit_axes. simpl default.
    rewrite (Hnone j Hj), py_get_nat.
    destruct (lookup_lt_is_Some_2 (axes self) j) as [ax ->];
      [lia | reflexivity].
  - apply Forall2_same_length_lookup_2.
    + now rewrite length_replicate.
    + intros i s n Hs _. apply lookup_replicate in Hs as [-> _]. now left.
Qed.


(** X4. [limit] looks for each dimension [j] of [range(ndim)] in
    [axes]: entries of [axes] that are no dimension (negative ones, or
    [ndim] and beyond) are skipped without an error, and a call that
    lists only such entries returns and changes nothing. *)
Theorem limit_ignores_foreign_axes {arith : Arith} self limits axes_arg :
  shape_invariant self ->
  rect (data self) = true ->
  length axes_arg = length limits ->
  (forall j, j < ndim (data self) -> py_in (Z.of_nat j) axes_arg = false) ->
  limit limits (Some axes_arg) self = (inr tt, self).
Proof. apply limit_skips_foreign_axes. Qed.

Lemma limit_ignores_foreign_axes_witness :
  limit [(0, 1)%Q; (0, 2)%Q] (Some [(-1)%Z; 2%Z]) mesh_3x3
  = (inr tt, mesh_3x3).
Proof.
  apply (limit_ignores_foreign_axes mesh_3x3 [(0, 1)%Q; (0, 2)%Q]
           [(-1)%Z; 2%Z]).
  - apply shape_invariant_consistent. reflexivity.
  - reflexivity.
  - reflexivity.
  - intros [| [| j]] Hj; [reflexivity | reflexivity |].
    exfalso. unfold ndim in Hj. simpl in Hj. lia.
Defined.

(** ** [limit] twice *)

Lemma first_min_segment v k lo n :
  first_min v k -> lo <= k < lo + n ->
  first_min (take n (drop lo v)) (k - lo).
Proof.
  intros (m & Hm & Hle & Hlt) Hk. exists m. split; [| split].
  - rewrite lookup_take_lt, lookup_drop by lia.
    now replace (lo + (k - lo)) with k by lia.
  - intros i y Hi. apply lookup_take_Some in Hi as [Hi _].
    rewrite lookup_drop in Hi. eapply Hle; eassumption.
  - intros i y Hik Hi. apply lookup_take_Some in Hi as [Hi _].
    rewrite lookup_drop in Hi. apply (Hlt (lo + i)); [lia | assumption].
Qed.

Lemma nearest_segment {arith : Arith} (ax : axis) x k lo n :
  nearest ax x = inr k -> lo <= k < lo + n ->
  nearest (take n (drop lo ax)) x = inr (k - lo).
Proof.
  unfold nearest. intros H Hk.
  apply first_min_np_argmin.
  rewrite <- firstn_map, <- skipn_map.
  apply first_min_segment; [| assumption].
  now apply np_argmin_first_min.
Qed.

Lemma nearest_lt {arith : Arith} (ax : axis) x k : nearest ax x = inr k -> k < length ax.
Proof.
  intros H. apply np_argmin_first_min in H as (m & Hm & _).
  apply lookup_lt_Some in Hm. now rewrite length_map in Hm.
Qed.

(** On the axis a call has cut, the same pair selects every sample. *)
Lemma limit_slice_again {arith : Arith} (ax : axis) x1 x2 i k1 k2 :
  nearest ax x1 = inr k1 -> nearest ax x2 = inr k2 -> k1 <> k2 ->
  let ax' := take (S (Nat.max k1 k2) - Nat.min k1 k2)
                  (drop (Nat.min k1 k2) ax) in
  limit_slice ax' (x1, x2) i = inr (SliceRange 0 (length ax')).
Proof.
  intros H1 H2 Hne ax'.
  assert (Hl1 := nearest_lt _ _ _ H1). assert (Hl2 := nearest_lt _ _ _ H2).
  assert (Hlen : length ax' = S (Nat.max k1 k2) - Nat.min k1 k2).
  { unfold ax'. rewrite length_take, length_drop. lia. }
  rewrite Hlen. clear Hlen. subst ax'. unfold limit_slice.
  rewrite (nearest_segment ax x1 k1 (Nat.min k1 k2)
             (S (Nat.max k1 k2) - Nat.min k1 k2)) by (assumption || lia).
  rewrite (nearest_segment ax x2 k2 (Nat.min k1 k2)
             (S (Nat.max k1 k2) - Nat.min k1 k2)) by (assumption || lia).
  destruct (k2 - Nat.min k1 k2 <? k1 - Nat.min k1 k2) eqn:E1.
  - apply Nat.ltb_lt in E1. do 2 f_equal; lia.
  - apply Nat.ltb_ge in E1.
    destruct (k1 - Nat.min k1 k2 =? k2 - Nat.min k1 k2) eqn:E2.
    + apply Nat.eqb_eq in E2. lia.
    + do 2 f_equal; lia.
Qed.

(** X5. A call of [limit] that returned, made again with the same
    arguments, returns and changes nothing: the samples nearest to the
    bounds are the ends of the axes it has cut. *)
Theorem limit_idempotent {arith : Arith} self limits axes_arg self' :
  shape_invariant self ->
  rect (data self) = true ->
  limit limits axes_arg self = (inr tt, self') ->
  limit limits axes_arg self' = (inr tt, self').
Proof.
  intros Hinv Hrect Hrun.
  assert (Hinv' : shape_invariant self').
  { apply shape_invariant_consistent. eapply limit_consistent; [| exact Hrun].
    now apply shape_invariant_consistent. }
  assert (Hrect' : rect (data self') = true)
    by (eapply limit_rect; eassumption).
  assert (Hdims : length (axes self) = ndim (data self)) by apply Hinv.
  assert (Hdims' : length (axes self') = ndim (data self')) by apply Hinv'.
  destruct (limit_keeps_range_aux self limits axes_arg self' Hinv Hrun)
    as (Hnd & Harity & Hax).
  assert (Hal : limit_axes self' axes_arg = limit_axes self axes_arg)
    by (unfold limit_axes; now rewrite Hnd).
  set (al := limit_axes self axes_arg) in *.
  set (ss := imap (fun j (ax' : axis) =>
                     if py_in (Z.of_nat j) al
                     then SliceRange 0 (length ax') else SliceAll)
                  (axes self')).
  apply (limit_whole self' limits axes_arg ss); try assumption.
  - now rewrite Hal.
  - unfold ss. now rewrite length_imap.
  - intros j s Hs. unfold ss in Hs. rewrite list_lookup_imap in Hs.
    destruct (axes self' !! j) as [ax' |] eqn:Hax'; [| discriminate].
    injection Hs as <-. rewrite Hal.
    assert (Hj : j < length (axes self))
      by (apply lookup_lt_Some in Hax'; lia).
    destruct (lookup_lt_is_Some_2 _ _ Hj) as [ax Hj'].
    specialize (Hax j ax Hj'). fold al in Hax.
    unfold slice_at. rewrite py_get_nat, Hax'.
    destruct (py_in (Z.of_nat j) al); [| reflexivity].
    destruct Hax as (i & x1 & x2 & k1 & k2 & Hi & Hl & H1 & H2 & Hne & Hnew).
    rewrite Hi, py_get_nat, Hl.
    assert (ax' = take (S (Nat.max k1 k2) - Nat.min k1 k2)
                       (drop (Nat.min k1 k2) ax)) as -> by congruence.
    now apply limit_slice_again.
  - apply shape_invariant_consistent in Hinv'. unfold consistent in Hinv'.
    rewrite <- Hinv'. apply Forall2_same_length_lookup_2.
    + unfold ss. now rewrite length_imap, length_map.
    + intros j s n Hs Hn. unfold ss in Hs.
      rewrite list_lookup_imap in Hs. rewrite list_lookup_fmap in Hn.
      destruct (axes self' !! j) as [ax' |]; [| discriminate].
      injection Hs as <-. injection Hn as <-.
      destruct (py_in _ _); [now right | now left].
Qed.

Lemma limit_idempotent_witness :
  exists self',
    limit [(0, 1)%Q] (Some [0%Z]) mesh_3x3 = (inr tt, self') /\
    limit [(0, 1)%Q] (Some [0%Z]) self' = (inr tt, self').
Proof.
  eexists. split; [vm_compute; reflexivity |].
  apply (limit_idempotent mesh_3x3 [(0, 1)%Q] (Some [0%Z])).
  - apply shape_invariant_consistent. reflexivity.
  - reflexivity.
  - vm_compute. reflexivity.
Defined.

(** ** [copy] checks again *)

(** X6. [copy] calls the constructor, which checks its arguments: the
    copy of a container with the shape invariant is a container with
    the same attributes, and a container without it (as a call of
    [limit] that raised can leave it) cannot be copied: [copy] raises
    one of the two errors of the constructor. *)
Theorem copy_revalidates self :
  (shape_invariant self -> copy self = inr self) /\
  (~ shape_invariant self ->
   copy self = inl (ValueError msg_num_axes) \/
   copy self = inl (ValueError msg_shape_axes)).
Proof.
  split; [apply copy_identical |].
  intros Hnot. unfold copy, MeshData_init, np_copy. rewrite map_id.
  destruct (ndim (data self) =? length (axes self)) eqn:E1; [| now left].
  destruct (bool_decide (shape (data self) = map length (axes self)))
    eqn:E2; [| now right].
  exfalso. apply Hnot, shape_invariant_consistent.
  apply bool_decide_eq_true_1 in E2. unfold consistent. congruence.
Qed.

(** The container a failed [limit] leaves cannot be copied. *)
Example copy_after_failed_limit :
  copy (limit [(0, 1)%Q; (1, 1)%Q] None mesh_3x3).2
  = inl (ValueError msg_shape_axes).
Proof. reflexivity. Qed.

(** ** [flip] in general *)

(** X7. Whatever a call of [flip] does, return or raise, on any list of
    axes: the labels, the units and the shape of the data are as
    before, and every axis is as before or reversed; when it raises,
    the data is untouched, though axes may already be reversed. *)
Theorem flip_frame self axes_arg :
  labels (flip axes_arg self).2 = labels self /\
  units (flip axes_arg self).2 = units self /\
  shape (data (flip axes_arg self).2) = shape (data self) /\
  Forall2 same_or_reversed (axes (flip axes_arg self).2) (axes self) /\
  (forall e, (flip axes_arg self).1 = inl e ->
             data (flip axes_arg self).2 = data self).
Proof.
  destruct (flip_state axes_arg self) as (Hd & Hl & Hu & Ha).
  rewrite Hd. auto.
Qed.

(** The loop of [flip] over valid indices of axes runs through. *)
Lemma flip_loop_valid axes_arg : forall slices self,
  length slices = length (axes self) ->
  Forall (fun j => is_Some (py_pos (axes self) j)) axes_arg ->
  exists slices' self',
    flip_loop axes_arg slices self = (inr slices', self').
Proof.
  induction axes_arg as [| ax rest IH]; intros slices self Hlen Hall.
  - simpl. eauto.
  - inversion Hall as [| ? ? [k Hk] Hrest]; subst.
    rewrite flip_loop_step, Hk.
    assert (Hlt : k < length (axes self)) by (eapply py_pos_lt; eassumption).
    destruct (lookup_lt_is_Some_2 _ _ Hlt) as [a Ha]. rewrite Ha. cbv zeta.
    unfold py_set. rewrite (py_pos_length slices (axes self)) by assumption.
    rewrite Hk. apply IH.
    + simpl. now rewrite !length_insert.
    + simpl. eapply Forall_impl; [exact Hrest |]. intros j Hj.
      now rewrite (py_pos_length _ (axes self)) by now rewrite length_insert.
Qed.

(** A call of [flip] with valid indices, as a loop. *)
Lemma flip_valid_run ax rest self :
  Forall (fun j => is_Some (py_pos (axes self) j)) (ax :: rest) ->
  flip (ax :: rest) self =
  (inl (IndexError msg_valid_indices),
   (flip_loop (ax :: rest) (map (fun _ => SliceAll) (axes self)) self).2).
Proof.
  intros Hall. rewrite flip_run.
  destruct (flip_loop_valid (ax :: rest) (map (fun _ => SliceAll) (axes self))
              self) as (ss & self1 & Hloop);
    [now rewrite length_map | assumption |].
  now rewrite Hloop.
Qed.

(** X8. One call of [flip] that names the same axis twice reverses the
    axis twice, so that it is as before, and raises where it indexes
    the data: the call raises [IndexError] and leaves the container as
    it was. *)
Theorem flip_repeated_axis self j k :
  py_pos (axes self) j = Some k ->
  flip [j; j] self = (inl (IndexError msg_valid_indices), self).
Proof.
  intros Hk.
  assert (Hlt : k < length (axes self)) by (eapply py_pos_lt; eassumption).
  destruct (lookup_lt_is_Some_2 _ _ Hlt) as [a Ha].
  rewrite flip_valid_run by (repeat constructor; eauto).
  f_equal.
  set (ss0 := map (fun _ : axis => SliceAll) (axes self)).
  assert (Hk0 : py_pos ss0 j = Some k).
  { rewrite <- Hk. apply py_pos_length. unfold ss0. now rewrite length_map. }
  rewrite flip_loop_step, Hk, Ha. cbv zeta. unfold py_set at 1.
  rewrite Hk0. rewrite flip_loop_step. cbn [axes set_axes].
  rewrite <- (py_pos_length (axes self)) by now rewrite length_insert.
  rewrite Hk, list_lookup_insert_eq by assumption. cbv zeta.
  unfold py_set.
  rewrite <- (py_pos_length ss0) by now rewrite length_insert.
  rewrite Hk0. cbn [flip_loop ret axes set_axes snd].
  rewrite !list_insert_insert_eq, rev_involutive.
  rewrite (list_insert_id (axes self)) by assumption.
  now destruct self.
Qed.

Lemma flip_repeated_axis_witness :
  flip [1%Z; 1%Z] mesh_3x3 = (inl (IndexError msg_valid_indices), mesh_3x3).
Proof.
  apply (flip_repeated_axis mesh_3x3 1%Z 1). reflexivity.
Defined.

(** X9. For two indices of axes, one call of [flip] with both, in
    either order, leaves the container as two calls with one index each
    leave it; every one of these calls raises [IndexError] where it
    indexes the data. *)
Theorem flip_two_axes self j1 j2 k1 k2 :
  py_pos (axes self) j1 = Some k1 -> py_pos (axes self) j2 = Some k2 ->
  exists self1 self2,
    flip [j1] self = (inl (IndexError msg_valid_indices), self1) /\
    flip [j2] self1 = (inl (IndexError msg_valid_indices), self2) /\
    flip [j1; j2] self = (inl (IndexError msg_valid_indices), self2) /\
    flip [j2; j1] self = (inl (IndexError msg_valid_indices), self2).
Proof.
  intros Hk1 Hk2.
  assert (Hlt1 : k1 < length (axes self)) by (eapply py_pos_lt; eassumption).
  assert (Hlt2 : k2 < length (axes self)) by (eapply py_pos_lt; eassumption).
  destruct (lookup_lt_is_Some_2 _ _ Hlt1) as [a1 Ha1].
  destruct (lookup_lt_is_Some_2 _ _ Hlt2) as [a2 Ha2].
  set (self1 := set_axes (<[k1:=rev a1]> (axes self)) self).
  assert (Hone : flip [j1] self = (inl (IndexError msg_valid_indices), self1))
    by (rewrite flip_one_run, Hk1, Ha1; reflexivity).
  assert (Hk2' : py_pos (axes self1) j2 = Some k2).
  { rewrite <- Hk2. apply py_pos_length. simpl. now rewrite length_insert. }
  destruct (lookup_lt_is_Some_2 (axes self1) k2) as [a2' Ha2'];
    [simpl; now rewrite length_insert |].
  set (self2 := set_axes (<[k2:=rev a2']> (axes self1)) self1).
  assert (Htwo : flip [j2] self1 = (inl (IndexError msg_valid_indices), self2))
    by (rewrite flip_one_run, Hk2', Ha2'; reflexivity).
  exists self1, self2. split; [exact Hone |]. split; [exact Htwo |].
  set (ss0 := map (fun _ : axis => SliceAll) (axes self)).
  assert (Hp : forall j k, py_pos (axes self) j = Some k ->
                 forall ss : list slice, length ss = length (axes self) ->
                 py_pos ss j = Some k).
  { intros j k Hk ss Hss. rewrite <- Hk. now apply py_pos_length. }
  assert (Hlen0 : length ss0 = length (axes self))
    by (unfold ss0; now rewrite length_map).
  split.
  - rewrite flip_valid_run by (repeat constructor; eauto). f_equal.
    fold ss0. rewrite flip_loop_step, Hk1, Ha1. cbv zeta.
    unfold py_set at 1. rewrite (Hp j1 k1 Hk1 ss0 Hlen0).
    rewrite flip_loop_step. fold self1. rewrite Hk2', Ha2'. cbv zeta.
    unfold py_set.
    rewrite (Hp j2 k2 Hk2) by now rewrite length_insert.
    reflexivity.
  - rewrite flip_valid_run by (repeat constructor; eauto). f_equal.
    fold ss0. rewrite flip_loop_step, Hk2, Ha2. cbv zeta.
    unfold py_set at 1. rewrite (Hp j2 k2 Hk2 ss0 Hlen0).
    rewrite flip_loop_step. cbn [axes set_axes].
    rewrite (py_pos_length (<[k2:=rev a2]> (axes self)) (axes self))
      by now rewrite length_insert.
    rewrite Hk1.
    destruct (decide (k1 = k2)) as [-> | Hne].
    + rewrite list_lookup_insert_eq by assumption. cbv zeta.
      unfold py_set.
      rewrite (Hp j1 k2 Hk1) by now rewrite length_insert.
      cbn [flip_loop ret snd]. subst self2 self1. cbn [axes set_axes] in *.
      rewrite list_lookup_insert_eq in Ha2' by assumption.
      injection Ha2' as <-.
      assert (a1 = a2) as -> by congruence. reflexivity.
    + rewrite list_lookup_insert_ne, Ha1 by congruence. cbv zeta.
      unfold py_set.
      rewrite (Hp j1 k1 Hk1) by now rewrite length_insert.
      cbn [flip_loop ret snd]. subst self2 self1. cbn [axes set_axes] in *.
      rewrite list_lookup_insert_ne in Ha2' by assumption.
      assert (a2' = a2) as -> by congruence.
      rewrite (list_insert_insert_ne (axes self) k1 k2) by assumption.
      reflexivity.
Qed.

Lemma flip_two_axes_witness :
  exists self1 self2,
    flip [0%Z] mesh_3x3 = (inl (IndexError msg_valid_indices), self1) /\
    flip [(-1)%Z] self1 = (inl (IndexError msg_valid_indices), self2) /\
    flip [0%Z; (-1)%Z] mesh_3x3
    = (inl (IndexError msg_valid_indices), self2) /\
    flip [(-1)%Z; 0%Z] mesh_3x3
    = (inl (IndexError msg_valid_indices), self2).
Proof.
  apply (flip_two_axes mesh_3x3 0%Z (-1)%Z 0 1); reflexivity.
Defined.

(** ** [normalize] at the edges *)

(** X10. The two errors of [normalize] and their order: on data
    without an element it raises the [ValueError] of [max], whatever
    the element type; on integers that hold an element it raises the
    [TypeError] of the in-place division; it returns exactly on
    floating data that holds an element. A call that raises changes
    nothing, and in every case the axes, the labels, the units, the
    shape and the element type of the data are as before. *)
Theorem normalize_frame self :
  axes (normalize self).2 = axes self /\
  labels (normalize self).2 = labels self /\
  units (normalize self).2 = units self /\
  shape (data (normalize self).2) = shape (data self) /\
  dtype (data (normalize self).2) = dtype (data self) /\
  (flatten (items (data self)) = [] ->
   normalize self = (inl (ValueError msg_max_empty), self)) /\
  (flatten (items (data self)) <> [] -> dtype (data self) = int64 ->
   normalize self = (inl (TypeError msg_cast_divide), self)) /\
  ((normalize self).1 = inr tt <->
   flatten (items (data self)) <> [] /\ dtype (data self) = float64).
Proof.
  destruct (flatten (items (data self))) as [| x l] eqn:E.
  - rewrite (normalize_empty self E). cbn [fst snd].
    do 5 (split; [reflexivity |]). split; [reflexivity |].
    split; [congruence |]. split; [discriminate | intros [H _]; congruence].
  - assert (Hmax : np_max (data self) = inr (fold_left qmax l x))
      by (unfold np_max; now rewrite E).
    destruct (dtype (data self)) eqn:Hdt.
    + rewrite (normalize_run self _ Hdt Hmax). cbn [fst snd].
      cbn [data set_data axes labels units shape dtype].
      do 4 (split; [reflexivity |]). split; [congruence |].
      split; [discriminate |]. split; [discriminate |].
      split; [intros _; split; [discriminate | reflexivity] | reflexivity].
    + rewrite (normalize_integers self _ Hdt Hmax). cbn [fst snd].
      do 4 (split; [reflexivity |]). split; [congruence |].
      split; [discriminate |]. split; [reflexivity |].
      split; [discriminate | intros [_ H]; discriminate].
Qed.

(** X11. On floating data with a positive maximum, [normalize] leaves
    no element above 1 and at least one element equal to 1. *)
Theorem normalize_bounded self m :
  dtype (data self) = float64 ->
  np_max (data self) = inr m ->
  (0 < m)%Q ->
  (forall y, In y (flatten (items (data (normalize self).2))) ->
             (y <= 1)%Q) /\
  (exists y, In y (flatten (items (data (normalize self).2))) /\
             (y == 1)%Q).
Proof.
  intros Hdt Hmax Hpos. rewrite (normalize_run self m Hdt Hmax). simpl.
  rewrite flatten_map_nd. unfold np_max in Hmax.
  destruct (list_max_Q (flatten (items (data self)))) as [m' |] eqn:E;
    [| discriminate].
  injection Hmax as ->. apply list_max_spec in E as [Hin Hle].
  assert (Hm0 : ~ (m == 0)%Q).
  { intros H0. rewrite H0 in Hpos. now apply (Qlt_irrefl 0). }
  split.
  - intros y Hy. apply in_map_iff in Hy as (x & <- & Hx).
    apply Qle_shift_div_r; [assumption |]. rewrite Qmult_1_l. now apply Hle.
  - exists (m / m)%Q. split; [apply in_map_iff; eauto |].
    unfold Qdiv. now apply Qmult_inv_r.
Qed.

Lemma normalize_bounded_witness :
  (forall y, In y (flatten (items (data (normalize mesh_2x2).2))) ->
             (y <= 1)%Q) /\
  (exists y, In y (flatten (items (data (normalize mesh_2x2).2))) /\
             (y == 1)%Q).
Proof.
  apply (normalize_bounded mesh_2x2 8%Q); reflexivity.
Defined.

(** ** [normalize] twice *)

Lemma Forall2_Qeq_map (f g : Q -> Q) l :
  (forall x, (f x == g x)%Q) -> Forall2 Qeq (map f l) (map g l).
Proof.
  intros H. induction l as [| x l IH]; simpl; constructor; auto.
Qed.

(** X20. For floating data with a positive maximum, [normalize] a
    second time returns and leaves every element equal to what the
    first call made it: the maximum is then 1. *)
Theorem normalize_twice self m :
  dtype (data self) = float64 ->
  np_max (data self) = inr m ->
  (0 < m)%Q ->
  (normalize (normalize self).2).1 = inr tt /\
  Forall2 Qeq
    (flatten (items (data (normalize (normalize self).2).2)))
    (flatten (items (data (normalize self).2))).
Proof.
  intros Hdt Hmax Hpos. rewrite (normalize_run self m Hdt Hmax). cbn [snd].
  set (self1 := set_data _ self).
  assert (Hm0 : ~ (m == 0)%Q).
  { intros H0. rewrite H0 in Hpos. now apply (Qlt_irrefl 0). }
  assert (Hmax1 : np_max (data self1) = inr (m / m)%Q).
  { unfold np_max in *. simpl. rewrite flatten_map_nd, list_max_div
      by assumption.
    destruct (list_max_Q (flatten (items (data self)))); [| discriminate].
    injection Hmax as ->. reflexivity. }
  rewrite (normalize_run self1 _ eq_refl Hmax1). simpl.
  split; [reflexivity |].
  rewrite !flatten_map_nd, map_map.
  apply Forall2_Qeq_map. intros x. field. first [assumption | split; assumption].
Qed.

Lemma normalize_twice_witness :
  (normalize (normalize mesh_2x2).2).1 = inr tt /\
  Forall2 Qeq
    (flatten (items (data (normalize (normalize mesh_2x2).2).2)))
    (flatten (items (data (normalize mesh_2x2).2))).
Proof.
  apply (normalize_twice mesh_2x2 8%Q); reflexivity.
Defined.

(** ** [autolimit] *)

Section Autolimit.

Context {arith : Arith}.
Context (lib_marginals : ndarray -> list Z -> result (list (list Q))).
Context (lib_limit : axis -> list Q -> Q -> Q -> result (Q * Q)).

Lemma autolimit_loop_length marginals threshold padding ijs :
  forall limits self out self',
    autolimit_loop lib_limit marginals threshold padding ijs limits self
    = (inr out, self') ->
    length out = length limits + length ijs.
Proof.
  induction ijs as [| [i j] rest IH]; intros limits self out self'.
  - intros [= <- _]. simpl. lia.
  - cbn [autolimit_loop]. step.
    destruct (py_get (axes self) j); [discriminate |].
    step. destruct (py_get marginals (Z.of_nat i)); [discriminate |].
    step. destruct (lib_limit _ _ _ _); [discriminate |].
    intros H. apply IH in H. rewrite H, length_app. simpl. lia.
Qed.

Lemma autolimit_cases axes_arg threshold padding self :
  (exists e, autolimit lib_marginals lib_limit axes_arg threshold padding self
             = (inl e, self)) \/
  (exists limits,
     length limits = length (autolimit_axes self axes_arg) /\
     autolimit lib_marginals lib_limit axes_arg threshold padding self
     = limit limits (Some (autolimit_axes self axes_arg)) self).
Proof.
  unfold autolimit. rewrite bind_get, bind_lift.
  fold (autolimit_axes self axes_arg).
  destruct (lib_marginals (data self) (autolimit_axes self axes_arg))
    as [e | marginals]; [left; eauto |].
  destruct (autolimit_loop lib_limit marginals threshold padding
              (zip (seq 0 (length (autolimit_axes self axes_arg)))
                   (autolimit_axes self axes_arg)) [] self)
    as [[e | limits] self1] eqn:Hloop.
  - left. exists e. rewrite (bind_raise _ _ _ _ _ Hloop).
    now apply autolimit_loop_state in Hloop as ->.
  - right. exists limits. rewrite (bind_ok _ _ _ _ _ Hloop).
    assert (Hlen := autolimit_loop_length _ _ _ _ _ _ _ _ Hloop).
    apply autolimit_loop_state in Hloop as ->.
    split; [| reflexivity].
    rewrite Hlen, length_zip, length_seq. simpl. lia.
Qed.

(** X12. [autolimit] changes the container only through [limit]: either
    a collaborator or an axis lookup raises and the container is
    untouched, or [limit] is called with exactly one pair per axis (so
    never with a wrong number of pairs), on all axes when none are
    given. *)
Theorem autolimit_is_limit axes_arg threshold padding self :
  (exists e, autolimit lib_marginals lib_limit axes_arg threshold padding self
             = (inl e, self)) \/
  (exists limits,
     length limits = length (autolimit_axes self axes_arg) /\
     autolimit lib_marginals lib_limit axes_arg threshold padding self
     = limit limits (Some (autolimit_axes self axes_arg)) self).
Proof. apply autolimit_cases. Qed.

(** X13. [autolimit] reads [self.axes[j]], where a negative [j] counts
    from the end, but [limit] skips such a [j]: a call of [autolimit]
    that lists only negative axes (or axes beyond the last dimension)
    never changes the container. *)
Theorem autolimit_foreign_axes axes_arg threshold padding self :
  shape_invariant self ->
  rect (data self) = true ->
  axes_arg <> [] ->
  (forall j, j < ndim (data self) -> py_in (Z.of_nat j) axes_arg = false) ->
  (autolimit lib_marginals lib_limit axes_arg threshold padding self).2
  = self.
Proof.
  intros Hinv Hrect Hne Hnone.
  assert (Hax : autolimit_axes self axes_arg = axes_arg).
  { unfold autolimit_axes. destruct axes_arg; [congruence | reflexivity]. }
  destruct (autolimit_cases axes_arg threshold padding self)
    as [[e ->] | (limits & Hlen & ->)]; [reflexivity |].
  rewrite Hax in *.
  now rewrite (limit_skips_foreign_axes self limits axes_arg).
Qed.

End Autolimit.

Lemma autolimit_foreign_axes_witness :
  (autolimit example_marginals example_limit [(-1)%Z] (1 # 100) (1 # 4)
             mesh_3x3).2 = mesh_3x3.
Proof.
  apply (autolimit_foreign_axes example_marginals example_limit [(-1)%Z]
           (1 # 100)%Q (1 # 4)%Q mesh_3x3).
  - apply shape_invariant_consistent. reflexivity.
  - reflexivity.
  - discriminate.
  - intros [| [| j]] Hj; [reflexivity | reflexivity |].
    exfalso. unfold ndim in Hj. simpl in Hj. lia.
Defined.

(** ** The sorting step of [interpolate] *)

Lemma insert_sorted_perm p l : insert_sorted p l ≡ₚ p :: l.
Proof.
  induction l as [| q l IH]; [reflexivity |].
  simpl. destruct (Qle_bool (fst p) (fst q)); [reflexivity |].
  rewrite IH. apply Permutation_swap.
Qed.

Lemma sort_pairs_perm l : foldr insert_sorted [] l ≡ₚ l.
Proof.
  induction l as [| p l IH]; [reflexivity |].
  simpl. rewrite insert_sorted_perm. now rewrite IH.
Qed.

Lemma insert_sorted_sorted p l :
  Sorted pair_le l -> Sorted pair_le (insert_sorted p l).
Proof.
  induction 1 as [| q l Hl IH Hq]; simpl.
  - repeat constructor.
  - destruct (Qle_bool (fst p) (fst q)) eqn:E.
    + apply Qle_bool_iff in E. repeat constructor; assumption.
    + apply Qle_bool_false, Qlt_le_weak in E.
      constructor; [assumption |].
      destruct l as [| r l]; simpl.
      * now constructor.
      * inversion Hq; subst.
        destruct (Qle_bool (fst p) (fst r)); now constructor.
Qed.

Lemma sort_pairs_sorted l : Sorted pair_le (foldr insert_sorted [] l).
Proof.
  induction l as [| p l IH]; simpl; [constructor |].
  now apply insert_sorted_sorted.
Qed.

Lemma sorted_fst l : Sorted pair_le l -> Sorted Qle (map fst l).
Proof.
  induction 1 as [| q l Hl IH Hq]; simpl; constructor; [assumption |].
  destruct Hq; simpl; now constructor.
Qed.

(** Every pair of a value and its position points back at the value. *)
Lemma zip_positions (v : list Q) p :
  p ∈ zip v (seq 0 (length v)) -> v !! snd p = Some (fst p).
Proof.
  intros Hp. apply list_elem_of_lookup in Hp as [i Hi].
  unfold zip in Hi. apply lookup_zip_with_Some in Hi as (x & j & -> & Hx & Hj).
  apply lookup_seq in Hj as [-> _]. exact Hx.
Qed.

Lemma fancy_cons {A} (v : list A) i idx :
  fancy v (i :: idx) =
  match v !! i with
  | Some x => x :: fancy v idx
  | None => fancy v idx
  end.
Proof. reflexivity. Qed.

Lemma fancy_pairs (v : list Q) (ps : list (Q * nat)) :
  Forall (fun p => v !! snd p = Some (fst p)) ps ->
  fancy v (map snd ps) = map fst ps.
Proof.
  induction 1 as [| p ps Hp _ IH]; [reflexivity |].
  cbn [map]. now rewrite fancy_cons, Hp, IH.
Qed.

Lemma sort_axis_pairs (a : axis) :
  sort_axis a = map fst (foldr insert_sorted [] (zip a (seq 0 (length a)))).
Proof.
  unfold sort_axis, np_argsort. apply fancy_pairs.
  apply Forall_forall. intros p Hp. apply zip_positions.
  now rewrite <- (sort_pairs_perm (zip a (seq 0 (length a)))).
Qed.

(** X14. The sorting step of [interpolate]: [np.argsort] of an axis is
    a rearrangement of the positions [0 .. n-1], and the axis taken at
    these positions holds the same samples in ascending order. *)
Theorem argsort_sorts (a : axis) :
  np_argsort a ≡ₚ seq 0 (length a) /\
  sort_axis a ≡ₚ a /\
  Sorted Qle (sort_axis a).
Proof.
  split; [| split].
  - unfold np_argsort. rewrite sort_pairs_perm.
    change (map snd ?l) with (snd <$> l).
    rewrite snd_zip; [reflexivity | now rewrite length_seq].
  - rewrite sort_axis_pairs.
    change (map fst ?l) with (fst <$> l).
    rewrite sort_pairs_perm, fst_zip; [reflexivity | now rewrite length_seq].
  - rewrite sort_axis_pairs. apply sorted_fst, sort_pairs_sorted.
Qed.

(** ** [interpolate] on two dimensions *)

Section Interpolate2D.

Context (Grid Interp : Type).
Context (build_coords : list axis -> result Grid).
Context (RegularGridInterpolator : list axis -> ndarray -> result Interp).
Context (interp_call : Interp -> Grid -> result ndarray).

#[local] Abbreviation interpolate2 :=
  (interpolate Grid Interp build_coords RegularGridInterpolator interp_call).

Lemma fill_targets_state js : forall targets self r self',
  fill_targets js targets self = (r, self') -> self' = self.
Proof.
  induction js as [| i rest IH]; intros targets self r self'.
  - now intros [= _ <-].
  - cbn [fill_targets]. step.
    destruct (py_get targets (Z.of_nat i)) as [e | [a |]];
      [now intros [= _ <-] | apply IH |].
    step. destruct (py_get (axes self) (Z.of_nat i)); [now intros [= _ <-] |].
    step. destruct (py_set targets _ _); [now intros [= _ <-] |].
    apply IH.
Qed.

(** A call on a two-dimensional container, step by step. *)
Lemma interpolate_2d_run self a0 a1 axis1 axis2 degree :
  axes self = [a0; a1] ->
  ndim (data self) = 2 ->
  interpolate2 axis1 axis2 degree false self =
  let src := [sort_axis a0; sort_axis a1] in
  let tg := [default a0 axis1; default a1 axis2] in
  match RegularGridInterpolator src (sort_data_2d a0 a1 (data self)) with
  | inl e => (inl e, set_axes src self)
  | inr f =>
      match build_coords tg with
      | inl e => (inl e, set_axes src self)
      | inr grid =>
          match interp_call f grid with
          | inl e => (inl e, set_axes src self)
          | inr out => (inr tt, mk_MeshData out tg (labels self) (units self))
          end
      end
  end.
Proof.
  destruct self as [[dt sh it] axs ls us]. simpl. intros -> Hn.
  destruct sh as [| n0 [| n1 [| ? ?]]]; try discriminate. clear Hn.
  set (d := mk_ndarray dt [n0; n1] it).
  set (self := mk_MeshData d [a0; a1] ls us).
  assert (Hfill : fill_targets (seq 0 2) [axis1; axis2] self
                  = (inr [Some (default a0 axis1); Some (default a1 axis2)],
                     self))
    by (destruct axis1, axis2; reflexivity).
  assert (Hsort : sort_loop (seq 0 2) d self
                  = (inr (sort_data_2d a0 a1 d),
                     set_axes [sort_axis a0; sort_axis a1] self))
    by reflexivity.
  unfold interpolate. rewrite bind_get.
  change (ndim (data self)) with 2.
  rewrite (bind_ok _ _ _ _ _ Hfill).
  change (negb false) with true. cbv iota.
  change (length (axes self)) with 2. unfold np_copy.
  change (data self) with d.
  rewrite (bind_ok _ _ _ _ _ Hsort). step.
  cbn [axes set_axes]. cbv zeta.
  destruct (RegularGridInterpolator _ _) as [e | f]; [reflexivity |].
  cbn [all_given fmap option_fmap option_map]. step.
  destruct (build_coords _) as [e | grid]; [reflexivity |].
  step. destruct (interp_call f grid) as [e | out]; [reflexivity |].
  step. reflexivity.
Qed.


(** X16. A call of [interpolate] on two dimensions that returns: the
    axes are the targets, where a target that was not given is the
    container's axis as it was before sorting; the labels and units
    are as before; the data is what the interpolant gives on the grid
    of these targets, the interpolant being built from the sorted axes
    and the data taken along both dimensions at the sorted positions. *)
Theorem interpolate_returns self a0 a1 axis1 axis2 degree self' :
  axes self = [a0; a1] ->
  ndim (data self) = 2 ->
  interpolate2 axis1 axis2 degree false self = (inr tt, self') ->
  axes self' = [default a0 axis1; default a1 axis2] /\
  labels self' = labels self /\ units self' = units self /\
  exists f grid,
    RegularGridInterpolator [sort_axis a0; sort_axis a1]
                            (sort_data_2d a0 a1 (data self)) = inr f /\
    build_coords (axes self') = inr grid /\
    interp_call f grid = inr (data self').
Proof.
  intros Hax Hn. rewrite (interpolate_2d_run self a0 a1) by assumption.
  cbv zeta.
  destruct (RegularGridInterpolator _ _) as [e | f]; [discriminate |].
  destruct (build_coords _) as [e | grid] eqn:Hg; [discriminate |].
  destruct (interp_call f grid) as [e | out] eqn:Hout; [discriminate |].
  intros [= <-]. simpl. repeat split. exists f, grid. auto.
Qed.

End Interpolate2D.


Example interpolate_unsorted_example :
  exists e,
    interpolate (list axis) (list axis * ndarray) example_build_coords
      example_interpolator example_call None None 2 false mesh_3x3_unsorted
    = (inl e, set_axes [Qs [1; 1; 2]%Z; Qs [0; 1; 2]%Z] mesh_3x3_unsorted).
Proof. eexists. vm_compute. reflexivity. Qed.

Lemma interpolate_returns_witness :
  exists self',
    interpolate (list axis) (list axis * ndarray) example_build_coords
      example_interpolator example_call (Some (Qs [5; 6]%Z)) None 2 false
      mesh_3x3 = (inr tt, self') /\
    axes self' = [default (Qs [0; 1; 2]%Z) (Some (Qs [5; 6]%Z));
                  default (Qs [0; 1; 2]%Z) None] /\
    labels self' = labels mesh_3x3 /\ units self' = units mesh_3x3 /\
    exists f grid,
      example_interpolator
        [sort_axis (Qs [0; 1; 2]%Z); sort_axis (Qs [0; 1; 2]%Z)]
        (sort_data_2d (Qs [0; 1; 2]%Z) (Qs [0; 1; 2]%Z) (data mesh_3x3))
      = inr f /\
      example_build_coords (axes self') = inr grid /\
      example_call f grid = inr (data self').
Proof.
  eexists. split; [vm_compute; reflexivity |].
  apply (interpolate_returns (list axis) (list axis * ndarray)
           example_build_coords example_interpolator example_call
           mesh_3x3 (Qs [0; 1; 2]%Z) (Qs [0; 1; 2]%Z)
           (Some (Qs [5; 6]%Z)) None 2).
  - reflexivity.
  - reflexivity.
  - vm_compute. reflexivity.
Defined.

(** ** The shape invariant after every call *)

Lemma length_sort_axis (a : axis) : length (sort_axis a) = length a.
Proof.
  rewrite sort_axis_pairs, length_map.
  rewrite (Permutation_length (sort_pairs_perm _)).
  rewrite length_zip_with, length_seq. lia.
Qed.

(** The sorting loop of [interpolate] writes sorted axes, as long as
    the axes they replace, and leaves the data of the container alone,
    whatever its outcome. *)
Lemma sort_loop_frame js : forall d self r self',
  sort_loop js d self = (r, self') ->
  data self' = data self /\
  map length (axes self') = map length (axes self).
Proof.
  induction js as [| i rest IH]; intros d self r self'.
  - intros [= _ <-]. auto.
  - cbn [sort_loop]. step. rewrite py_get_nat.
    destruct (axes self !! i) as [a |] eqn:Ha; [| intros [= _ <-]; auto].
    step. rewrite py_set_nat by (eapply lookup_lt_Some; eassumption).
    step.
    assert (Hlen : map length (<[i:=fancy a (np_argsort a)]> (axes self))
                   = map length (axes self)).
    { change (map length ?l) with (length <$> l).
      rewrite list_fmap_insert. apply list_insert_id.
      rewrite list_lookup_fmap, Ha. simpl. f_equal.
      symmetry. apply length_sort_axis. }
    destruct (np_take d (np_argsort a) i) as [e | d'].
    + intros [= _ <-]. simpl. auto.
    + intros H. apply IH in H as [Hd Hl]. simpl in *.
      split; [assumption | congruence].
Qed.

Section Invariant.

Context {arith : Arith}.
Context (lib_marginals : ndarray -> list Z -> result (list (list Q))).
Context (lib_limit : axis -> list Q -> Q -> Q -> result (Q * Q)).
Context (Grid Interp : Type).
Context (build_coords : list axis -> result Grid).
Context (RegularGridInterpolator : list axis -> ndarray -> result Interp).
Context (interp_call : Interp -> Grid -> result ndarray).

#[local] Abbreviation run_interpolate :=
  (interpolate Grid Interp build_coords RegularGridInterpolator interp_call).

#[local] Abbreviation run_exec :=
  (exec lib_marginals lib_limit Grid Interp build_coords
        RegularGridInterpolator interp_call).

#[local] Abbreviation can_reach :=
  (reachable lib_marginals lib_limit Grid Interp build_coords
             RegularGridInterpolator interp_call).

Lemma autolimit_consistent axes_arg threshold padding self self' :
  consistent self ->
  autolimit lib_marginals lib_limit axes_arg threshold padding self
  = (inr tt, self') ->
  consistent self'.
Proof.
  intros Hc. unfold autolimit. rewrite bind_get, bind_lift.
  destruct (lib_marginals _ _) as [e | marginals]; [discriminate |].
  intros Hrun.
  apply bind_inr_inv in Hrun as (limits & self1 & Hloop & Hrun).
  apply autolimit_loop_state in Hloop as ->.
  eapply limit_consistent; eassumption.
Qed.

(** A call of [interpolate] that raises has written nothing but sorted
    axes. *)
Lemma interpolate_raise_frame axis1 axis2 degree sorted self e self' :
  run_interpolate axis1 axis2 degree sorted self = (inl e, self') ->
  data self' = data self /\
  map length (axes self') = map length (axes self).
Proof.
  unfold interpolate. rewrite bind_get.
  destruct (fill_targets (seq 0 (ndim (data self))) [axis1; axis2] self)
    as [[e0 | targets] self1] eqn:Hfill.
  { rewrite (bind_raise _ _ _ _ _ Hfill). intros [= _ <-].
    apply fill_targets_state in Hfill as ->. auto. }
  rewrite (bind_ok _ _ _ _ _ Hfill).
  apply fill_targets_state in Hfill as ->.
  match goal with
  | |- bind ?c0 _ _ = _ -> _ => set (c := c0)
  end.
  assert (Hframe : forall r s, c self = (r, s) ->
            data s = data self /\
            map length (axes s) = map length (axes self)).
  { subst c. destruct sorted; cbn [negb]; intros r s.
    - intros [= _ <-]. auto.
    - apply sort_loop_frame. }
  destruct (c self) as [[e0 | d] self2] eqn:Hsort.
  { rewrite (bind_raise _ _ _ _ _ Hsort). intros [= _ <-].
    exact (Hframe _ _ eq_refl). }
  rewrite (bind_ok _ _ _ _ _ Hsort). specialize (Hframe _ _ eq_refl).
  step.
  destruct (RegularGridInterpolator (axes self2) d) as [e0 | f];
    [intros [= _ <-]; exact Hframe |].
  destruct (all_given targets) as [tg |]; [| intros [= _ <-]; exact Hframe].
  step. destruct (build_coords tg) as [e0 | grid];
    [intros [= _ <-]; exact Hframe |].
  step. destruct (interp_call f grid) as [e0 | out];
    [intros [= _ <-]; exact Hframe |].
  step. discriminate.
Qed.

Section Shapes.

(** What the container relies on: evaluated on the grid of the target
    axes, the interpolant gives one value per combination of target
    coordinates. *)
Hypothesis interp_shape : forall src d f tg grid out,
  RegularGridInterpolator src d = inr f ->
  build_coords tg = inr grid ->
  interp_call f grid = inr out ->
  shape out = map length tg.

Lemma interpolate_consistent axis1 axis2 degree sorted self self' :
  run_interpolate axis1 axis2 degree sorted self = (inr tt, self') ->
  consistent self'.
Proof.
  unfold interpolate. rewrite bind_get. intros Hrun.
  apply bind_inr_inv in Hrun as (targets & self1 & _ & Hrun).
  apply bind_inr_inv in Hrun as (d & self2 & _ & Hrun).
  revert Hrun. step.
  destruct (RegularGridInterpolator (axes self2) d) as [e | f] eqn:Hf;
    [discriminate |].
  destruct (all_given targets) as [tg |]; [| discriminate].
  step. destruct (build_coords tg) as [e | grid] eqn:Hg; [discriminate |].
  step. destruct (interp_call f grid) as [e | out] eqn:Hout; [discriminate |].
  step. intros [= <-]. unfold consistent. simpl.
  symmetry. eapply interp_shape; eassumption.
Qed.

(** Every call keeps the invariant, whether it returns or raises; a
    call that goes through [limit] keeps it when it returns, or when it
    raises before it wrote to the container. *)
Lemma exec_consistent c self r self' :
  consistent self ->
  run_exec c self = (r, self') ->
  (through_limit c = true -> r = inr tt \/ self' = self) ->
  consistent self'.
Proof.
  intros Hc Hrun Hr. destruct c; cbn [exec through_limit] in *.
  - destruct (Hr eq_refl) as [-> | ->]; [| exact Hc].
    eapply limit_consistent; eassumption.
  - destruct (Hr eq_refl) as [-> | ->]; [| exact Hc].
    eapply autolimit_consistent; eassumption.
  - destruct r as [e | []].
    + apply interpolate_raise_frame in Hrun as [Hd Ha].
      unfold consistent in *. congruence.
    + eapply interpolate_consistent; eassumption.
  - replace self' with (flip axes_arg self).2 by now rewrite Hrun.
    now apply flip_consistent.
  - replace self' with (normalize self).2 by now rewrite Hrun.
    now apply normalize_consistent.
Qed.

(** C1 (amended). A container that comes from the constructor and from
    any number of calls of [limit], [autolimit], [interpolate], [flip]
    and [normalize], returned or raised, has as many axes as its data
    has dimensions, and each axis is as long as its dimension, as long
    as every call of [limit] and of [autolimit] among them returned or
    raised without a change to the container. *)
Theorem shape_invariant_reachable self :
  can_reach self -> shape_invariant self.
Proof.
  intros H. apply shape_invariant_consistent.
  induction H as [d0 a0 l0 u0 self _ Hinit | c self r self' _ IH Hrun Hr].
  - eapply init_consistent; eassumption.
  - eapply exec_consistent; eassumption.
Qed.

End Shapes.

(** The interpolant returns an array. *)
Hypothesis interp_rect : forall f grid out,
  interp_call f grid = inr out -> rect out = true.

Lemma exec_rect c self r self' :
  rect (data self) = true ->
  run_exec c self = (r, self') ->
  (through_limit c = true -> r = inr tt \/ self' = self) ->
  rect (data self') = true.
Proof.
  intros Hrect Hrun Hr. destruct c; cbn [exec through_limit] in *.
  - destruct (Hr eq_refl) as [-> | ->]; [| exact Hrect].
    eapply limit_rect; eassumption.
  - destruct (Hr eq_refl) as [-> | ->]; [| exact Hrect]. revert Hrun.
    unfold autolimit. rewrite bind_get, bind_lift.
    destruct (lib_marginals _ _) as [e | marginals]; [discriminate |].
    intros Hrun.
    apply bind_inr_inv in Hrun as (limits & self1 & Hloop & Hrun).
    apply autolimit_loop_state in Hloop as ->.
    eapply limit_rect; eassumption.
  - destruct r as [e | []].
    + apply interpolate_raise_frame in Hrun as [Hd _]. congruence.
    + revert Hrun. unfold interpolate. rewrite bind_get. intros Hrun.
      apply bind_inr_inv in Hrun as (targets & self1 & _ & Hrun).
      apply bind_inr_inv in Hrun as (d & self2 & _ & Hrun).
      revert Hrun. step.
      destruct (RegularGridInterpolator (axes self2) d) as [e | f];
        [discriminate |].
      destruct (all_given targets) as [tg |]; [| discriminate].
      step. destruct (build_coords tg) as [e | grid]; [discriminate |].
      step. destruct (interp_call f grid) as [e | out] eqn:Hout;
        [discriminate |].
      step. intros [= <-]. simpl. eapply interp_rect; eassumption.
  - replace self' with (flip axes_arg self).2 by now rewrite Hrun.
    destruct (flip_state axes_arg self) as [Hd _]. congruence.
  - replace self' with (normalize self).2 by now rewrite Hrun.
    destruct (normalize_cases self) as [[e ->] | [m ->]]; [exact Hrect |].
    unfold rect in *. simpl. now rewrite has_shape_map_nd.
Qed.

(** The data of every reachable container is rectangular. *)
Lemma reachable_rect self : can_reach self -> rect (data self) = true.
Proof.
  induction 1 as [d0 a0 l0 u0 self Hr Hinit | c self r self' _ IH Hrun Hr].
  - apply init_inv in Hinit as [-> _]. exact Hr.
  - eapply exec_rect; eassumption.
Qed.

End Invariant.

Lemma example_interp_shape src d f tg grid out :
  example_interpolator src d = inr f ->
  example_build_coords tg = inr grid ->
  example_call f grid = inr out ->
  shape out = map length tg.
Proof.
  unfold example_interpolator, example_build_coords, example_call.
  destruct (bool_decide (shape d = map length src)) eqn:Hs; simpl;
    [| discriminate].
  destruct (forallb strictly_increasing src); [| discriminate].
  intros [= <-] [= <-]. simpl.
  apply bool_decide_eq_true_1 in Hs.
  destruct (bool_decide (tg = src)) eqn:Ht; intros [= <-].
  - apply bool_decide_eq_true_1 in Ht. cbn [astype_float shape]. congruence.
  - reflexivity.
Qed.

(** The 3x3 example after [limit((0,1), (0,2))], which returns,
    [flip(0)], which reverses the first axis and raises, and
    [interpolate()], which returns. *)
Lemma shape_invariant_reachable_witness :
  exists self,
    reachable example_marginals example_limit (list axis)
      (list axis * ndarray) example_build_coords example_interpolator
      example_call self /\
    shape (data self) = [2; 3] /\
    shape_invariant self.
Proof.
  assert (Hreach : exists self,
    reachable example_marginals example_limit (list axis)
      (list axis * ndarray) example_build_coords example_interpolator
      example_call self /\
    shape (data self) = [2; 3]).
  { eexists. split.
    - eapply (reach_call _ _ _ _ _ _ _ (Interpolate None None 2 false)
                _ (inr tt)).
      + eapply (reach_call _ _ _ _ _ _ _ (Flip [0%Z]) _
                  (inl (IndexError msg_valid_indices))).
        * eapply (reach_call _ _ _ _ _ _ _
                    (Limit [(0, 1)%Q; (0, 2)%Q] None) _ (inr tt)).
          -- eapply (reach_init _ _ _ _ _ _ _ data_3x3
                       [Qs [0; 1; 2]%Z; Qs [0; 1; 2]%Z] None None);
               reflexivity.
          -- vm_compute. reflexivity.
          -- left. reflexivity.
        * vm_compute. reflexivity.
        * discriminate.
      + vm_compute. reflexivity.
      + discriminate.
    - reflexivity. }
  destruct Hreach as [self [Hreach Hshape]].
  exists self. split; [exact Hreach |]. split; [exact Hshape |].
  exact (shape_invariant_reachable example_marginals example_limit
           (list axis) (list axis * ndarray) example_build_coords
           example_interpolator example_call example_interp_shape
           self Hreach).
Defined.

(** C1, as stated, fails when [limit] raises: [limit((0,1), (1,1))] on
    the constructed 3x3 example cuts the first axis to two samples, then
    raises for the second axis and leaves the data 3x3. *)
Lemma shape_invariant_lost_when_limit_raises :
  exists self self',
    MeshData_init data_3x3 [Qs [0; 1; 2]%Z; Qs [0; 1; 2]%Z] None None
    = inr self /\
    limit [(0, 1)%Q; (1, 1)%Q] None self
    = (inl (ValueError (msg_empty_slice 1)), self') /\
    length <$> (axes self' !! 0) = Some 2 /\
    shape (data self') !! 0 = Some 3 /\
    ~ shape_invariant self'.
Proof.
  eexists. eexists. split; [reflexivity |].
  split; [vm_compute; reflexivity |].
  split; [reflexivity |]. split; [reflexivity |].
  intros [_ H]. specialize (H 0). cbv in H.
  assert (Hlt : 0 < 2) by lia. specialize (H Hlt). discriminate.
Qed.

(** ** The pair [limit] reads for a dimension *)

Lemma slice_at_same_pairs {arith : Arith} limits limits' axes_arg axs j :
  (forall i, py_index (Z.of_nat j) axes_arg = Some i ->
             py_get limits (Z.of_nat i) = py_get limits' (Z.of_nat i)) ->
  slice_at limits' axes_arg axs j = slice_at limits axes_arg axs j.
Proof.
  intros H. unfold slice_at.
  destruct (py_in (Z.of_nat j) axes_arg); [| reflexivity].
  destruct (py_index (Z.of_nat j) axes_arg) as [i |]; [| reflexivity].
  destruct (py_get axs (Z.of_nat j)); [reflexivity |].
  now rewrite (H i eq_refl).
Qed.

Lemma limit_loop_same_pairs {arith : Arith} limits limits' axes_arg js :
  forall slices self,
    (forall j i, In j js -> py_index (Z.of_nat j) axes_arg = Some i ->
                 py_get limits (Z.of_nat i) = py_get limits' (Z.of_nat i)) ->
    limit_loop limits' axes_arg js slices self
    = limit_loop limits axes_arg js slices self.
Proof.
  induction js as [| j js IH]; intros slices self H; [reflexivity |].
  rewrite !limit_loop_step.
  rewrite (slice_at_same_pairs limits limits')
    by (intros i; apply H; now left).
  destruct (slice_at limits axes_arg (axes self) j); [reflexivity |].
  destruct (axes self !! j); [| reflexivity].
  apply IH. intros j' i Hj'. apply H. now right.
Qed.

(** X17. For each dimension [limit] reads the pair at the first place
    where the dimension stands in [axes]: two calls with as many pairs
    that agree on these pairs do the same, whatever the other pairs
    are (pairs for a repeated axis, or for an entry that is no
    dimension). *)
Theorem limit_reads_first_occurrence {arith : Arith} self limits limits' axes_arg :
  length limits = length limits' ->
  (forall j i, j < ndim (data self) ->
     py_index (Z.of_nat j) (limit_axes self axes_arg) = Some i ->
     limits !! i = limits' !! i) ->
  limit limits' axes_arg self = limit limits axes_arg self.
Proof.
  intros Hlen Hsame. unfold limit, as_list. rewrite !bind_get.
  fold (limit_axes self axes_arg).
  replace (match axes_arg with
           | Some a => a
           | None => map Z.of_nat (seq 0 (ndim (data self)))
           end)
    with (limit_axes self axes_arg) by now destruct axes_arg.
  rewrite <- Hlen. destruct (negb _); [reflexivity |].
  unfold bind at 1 3.
  rewrite (limit_loop_same_pairs limits limits'); [reflexivity |].
  intros j i Hj Hi. apply in_seq in Hj.
  rewrite !py_get_nat, (Hsame j i) by (assumption || lia). reflexivity.
Qed.

Lemma limit_reads_first_occurrence_witness :
  limit [(0, 1)%Q; (1, 1)%Q] (Some [0%Z; 0%Z]) mesh_3x3
  = limit [(0, 1)%Q; (0, 2)%Q] (Some [0%Z; 0%Z]) mesh_3x3.
Proof.
  apply (limit_reads_first_occurrence mesh_3x3 [(0, 1)%Q; (0, 2)%Q]
           [(0, 1)%Q; (1, 1)%Q] (Some [0%Z; 0%Z])).
  - reflexivity.
  - intros j i Hj.
    assert (Hcases : j = 0 \/ j = 1) by (unfold ndim in Hj; simpl in Hj; lia).
    destruct Hcases as [-> | ->]; simpl; intros Hi;
      [injection Hi as <-; reflexivity | discriminate].
Defined.

(** ** When [flip] returns *)

Lemma py_pos_range {A} (l : list A) j :
  is_Some (py_pos l j) <-> index_in_range (length l) j.
Proof.
  unfold py_pos, index_in_range.
  destruct ((0 <=? j)%Z && (j <? Z.of_nat (length l))%Z) eqn:E1.
  - apply andb_prop in E1 as [H1 H2]. split; [lia | eauto].
  - destruct ((- Z.of_nat (length l) <=? j)%Z && (j <? 0)%Z) eqn:E2.
    + apply andb_prop in E2 as [H1 H2]. split; [lia | eauto].
    + split; [intros [? [=]] |]. intros H. exfalso.
      apply andb_false_iff in E1, E2. lia.
Qed.

Lemma flip_loop_outcome axes_arg : forall slices self,
  length slices = length (axes self) ->
  (Forall (index_in_range (length (axes self))) axes_arg ->
   exists slices' self',
     flip_loop axes_arg slices self = (inr slices', self') /\
     length slices' = length slices) /\
  (~ Forall (index_in_range (length (axes self))) axes_arg ->
   exists self',
     flip_loop axes_arg slices self = (inl (IndexError msg_list_index), self')).
Proof.
  induction axes_arg as [| ax rest IH]; intros slices self Hlen.
  - split; [intros _; simpl; eauto |]. intros H. exfalso. apply H. constructor.
  - rewrite flip_loop_step.
    destruct (py_pos (axes self) ax) as [k |] eqn:Hk.
    2:{ split.
        - intros H. inversion H as [| ? ? Hax _]; subst.
          apply py_pos_range in Hax as [k' Hk']. congruence.
        - intros _. eauto. }
    assert (Hlt : k < length (axes self)) by (eapply py_pos_lt; eassumption).
    destruct (lookup_lt_is_Some_2 _ _ Hlt) as [a Ha]. rewrite Ha. cbv zeta.
    unfold py_set. rewrite (py_pos_length slices (axes self)) by assumption.
    rewrite Hk.
    set (self1 := set_axes (<[k:=rev a]> (axes self)) self).
    assert (Hlen1 : length (<[k:=SliceRev]> slices) = length (axes self1))
      by (simpl; now rewrite !length_insert).
    assert (Hsame : length (axes self1) = length (axes self))
      by (simpl; now rewrite length_insert).
    destruct (IH (<[k:=SliceRev]> slices) self1 Hlen1) as [Hok Hraise].
    rewrite Hsame in Hok, Hraise.
    assert (Hax : index_in_range (length (axes self)) ax)
      by (apply py_pos_range; eauto).
    split.
    + intros H. inversion H; subst.
      destruct Hok as (s' & self' & Hrun & Hl); [assumption |].
      exists s', self'. split; [assumption |].
      now rewrite Hl, length_insert.
    + intros H. apply Hraise. intros Hrest. apply H. now constructor.
Qed.

(** X18. [flip] returns only when no axis is given. With axes it
    raises [IndexError] in every case: that of a list index out of
    range when some listed axis is no index of the list of axes (from
    [-n] to [n - 1] for [n] axes), and otherwise that of NumPy, where
    the data is indexed by the list of slices. *)
Theorem flip_returns_iff self axes_arg :
  ((flip axes_arg self).1 = inr tt <-> axes_arg = []) /\
  (axes_arg <> [] ->
   Forall (index_in_range (length (axes self))) axes_arg ->
   (flip axes_arg self).1 = inl (IndexError msg_valid_indices)) /\
  (~ Forall (index_in_range (length (axes self))) axes_arg ->
   (flip axes_arg self).1 = inl (IndexError msg_list_index)).
Proof.
  destruct axes_arg as [| ax rest].
  { cbn. split; [tauto |]. split; [congruence |].
    intros H. exfalso. apply H. constructor. }
  rewrite flip_run.
  set (ss0 := map (fun _ : axis => SliceAll) (axes self)).
  assert (Hlen0 : length ss0 = length (axes self))
    by (unfold ss0; now rewrite length_map).
  destruct (flip_loop_outcome (ax :: rest) ss0 self Hlen0) as [Hok Hraise].
  assert (Hdec : forall j, Decision (index_in_range (length (axes self)) j))
    by (intros j; unfold index_in_range; apply _).
  destruct (@Forall_dec _ _ Hdec (ax :: rest)) as [Hall | Hnot].
  - destruct (Hok Hall) as (s' & self' & Hrun & _). rewrite Hrun. cbn [fst].
    split; [split; discriminate |]. split; [reflexivity | contradiction].
  - destruct (Hraise Hnot) as [self' Hrun]. rewrite Hrun. cbn [fst].
    split; [split; discriminate |]. split; [contradiction | reflexivity].
Qed.

(** ** [copy] and the places of the data and the axes *)

(** X19. After [copy], on a heap where the original reads a container
    with the shape invariant: the copy reads the same data, axes, labels
    and units and the original still reads its own; the copy's data and
    axes live at new places, so no store to a place the copy made is
    seen by the original, and no store to a place that existed before
    is seen in the copy's data and axes. *)
Theorem copy_independent_data_axes h o v :
  Heap.view h o = Some v ->
  shape_invariant v ->
  exists c h',
    Heap.copy h o = Some (inr c, h') /\
    Heap.view h' c = Some v /\ Heap.view h' o = Some v /\
    (forall l x, length h <= l ->
       Heap.view (Heap.store l x h') o = Some v) /\
    (forall l x, l < length h ->
       Heap.read_ndarray (Heap.store l x h') (Heap.data_at c)
       = Some (data v) /\
       exists rs,
         Heap.read_refs (Heap.store l x h') (Heap.axes_at c) = Some rs /\
         Heap.read_axes (Heap.store l x h') rs = Some (axes v)).
Proof.
  intros Hview Hinv.
  destruct (copy_spec h o v Hview Hinv)
    as (c & h' & H1 & H2 & H3 & H4 & H5 & _).
  exists c, h'. auto.
Qed.

Lemma copy_independent_data_axes_witness :
  exists c h',
    Heap.copy Heap.heap0 Heap.mesh0 = Some (inr c, h') /\
    Heap.view h' c = Some mesh0_view /\
    Heap.view h' Heap.mesh0 = Some mesh0_view /\
    (forall l x, length Heap.heap0 <= l ->
       Heap.view (Heap.store l x h') Heap.mesh0 = Some mesh0_view) /\
    (forall l x, l < length Heap.heap0 ->
       Heap.read_ndarray (Heap.store l x h') (Heap.data_at c)
       = Some (data mesh0_view) /\
       exists rs,
         Heap.read_refs (Heap.store l x h') (Heap.axes_at c) = Some rs /\
         Heap.read_axes (Heap.store l x h') rs = Some (axes mesh0_view)).
Proof.
  apply (copy_independent_data_axes Heap.heap0 Heap.mesh0 mesh0_view).
  - reflexivity.
  - apply shape_invariant_consistent. reflexivity.
Defined.

